(** * RN-Game-Joystick: the joystick's drag mapping and the per-frame integrator

    A shallow embedding of [src/components/game/Joystick.tsx] and
    [src/app/index.tsx], and the laws their specification states.

    Numbers.  A JavaScript [number] is modelled by [number]: a real, or one of
    the three non-finite values that the arithmetic of the source can produce
    ([Infinity], [-Infinity], [NaN]).  Finite arithmetic is exact real
    arithmetic: rounding, overflow and underflow of binary64 are left out,
    and zero carries no sign (the one zero behaves as [+0]).  The non-finite
    cases of every operation follow ECMAScript.  Where a law depends on what
    rounding or underflow does, the drag update is taken once more on
    binary64 numbers, in [Binary64]. *)

From Stdlib Require Import Reals Lra Lia List String Bool.
From Stdlib Require PrimFloat.
Import ListNotations.

Local Open Scope R_scope.

(** ** JavaScript numbers *)

Module JS.

Inductive number : Type :=
| Num (r : R)
| PInf
| NInf
| NaN.

(** [Infinity] with the sign of a real factor; [NaN] when the factor is zero
    ([Infinity * 0]). *)
Definition inf_by_sign (positive : bool) (r : R) : number :=
  if Rlt_dec 0 r then (if positive then PInf else NInf)
  else if Rlt_dec r 0 then (if positive then NInf else PInf)
  else NaN.

(** Unary minus. *)
Definition neg (a : number) : number :=
  match a with
  | Num x => Num (- x)
  | PInf => NInf
  | NInf => PInf
  | NaN => NaN
  end.

(** [a + b] *)
Definition add (a b : number) : number :=
  match a, b with
  | NaN, _ | _, NaN => NaN
  | Num x, Num y => Num (x + y)
  | PInf, NInf | NInf, PInf => NaN
  | PInf, _ | _, PInf => PInf
  | NInf, _ | _, NInf => NInf
  end.

(** [a - b] *)
Definition sub (a b : number) : number := add a (neg b).

(** [a * b] *)
Definition mul (a b : number) : number :=
  match a, b with
  | NaN, _ | _, NaN => NaN
  | Num x, Num y => Num (x * y)
  | PInf, Num y | Num y, PInf => inf_by_sign true y
  | NInf, Num y | Num y, NInf => inf_by_sign false y
  | PInf, PInf | NInf, NInf => PInf
  | PInf, NInf | NInf, PInf => NInf
  end.

(** [a / b].  A finite nonzero dividend over zero is an infinity of the
    dividend's sign, [0 / 0] is [NaN]. *)
Definition div (a b : number) : number :=
  match a, b with
  | NaN, _ | _, NaN => NaN
  | Num x, Num y =>
      if Req_dec_T y 0 then
        (if Rlt_dec 0 x then PInf else if Rlt_dec x 0 then NInf else NaN)
      else Num (x / y)
  | Num _, (PInf | NInf) => Num 0
  | PInf, Num y => if Rlt_dec y 0 then NInf else PInf
  | NInf, Num y => if Rlt_dec y 0 then PInf else NInf
  | (PInf | NInf), (PInf | NInf) => NaN
  end.

(** [a ** 2] *)
Definition pow2 (a : number) : number :=
  match a with
  | Num x => Num (x * x)
  | PInf | NInf => PInf
  | NaN => NaN
  end.

(** [a <= b]: false as soon as one side is [NaN]. *)
Definition le (a b : number) : bool :=
  match a, b with
  | NaN, _ | _, NaN => false
  | Num x, Num y => if Rle_dec x y then true else false
  | NInf, _ => true
  | _, PInf => true
  | PInf, _ => false
  | Num _, NInf => false
  end.

(** [a !== 0] *)
Definition ne0 (a : number) : bool :=
  match a with
  | Num x => if Req_dec_T x 0 then false else true
  | _ => true
  end.

End JS.

Export JS.

Declare Scope js_scope.
Delimit Scope js_scope with js.
Bind Scope js_scope with number.
Infix "+" := JS.add : js_scope.
Infix "-" := JS.sub : js_scope.
Infix "*" := JS.mul : js_scope.
Infix "/" := JS.div : js_scope.
Infix "<=?" := JS.le (at level 70) : js_scope.

(** ** The [Math] object *)

Module Math.

(** [Math.sqrt] *)
Definition sqrt (a : number) : number :=
  match a with
  | Num x => if Rlt_dec x 0 then NaN else Num (R_sqrt.sqrt x)
  | PInf => PInf
  | NInf | NaN => NaN
  end.

(** The angle of the point [(x, y)], in [(-PI, PI]], for finite arguments. *)
Definition Ratan2 (y x : R) : R :=
  if Rlt_dec 0 x then atan (y / x)
  else if Rlt_dec x 0 then
    (if Rle_dec 0 y then atan (y / x) + PI else atan (y / x) - PI)
  else if Rlt_dec 0 y then PI / 2
  else if Rlt_dec y 0 then - (PI / 2)
  else 0.

(** [Math.atan2 (y, x)] *)
Definition atan2 (y x : number) : number :=
  match y, x with
  | NaN, _ | _, NaN => NaN
  | Num b, Num a => Num (Ratan2 b a)
  | Num b, PInf => Num 0
  | Num b, NInf => if Rlt_dec b 0 then Num (- PI) else Num PI
  | PInf, Num _ => Num (PI / 2)
  | NInf, Num _ => Num (- (PI / 2))
  | PInf, PInf => Num (PI / 4)
  | NInf, PInf => Num (- (PI / 4))
  | PInf, NInf => Num (3 * PI / 4)
  | NInf, NInf => Num (- (3 * PI / 4))
  end.

(** [Math.cos] *)
Definition cos (a : number) : number :=
  match a with
  | Num x => Num (Rtrigo_def.cos x)
  | _ => NaN
  end.

(** [Math.sin] *)
Definition sin (a : number) : number :=
  match a with
  | Num x => Num (Rtrigo_def.sin x)
  | _ => NaN
  end.

(** [Math.max (a, b)]: [NaN] as soon as one argument is. *)
Definition max (a b : number) : number :=
  match a, b with
  | NaN, _ | _, NaN => NaN
  | Num x, Num y => Num (Rmax x y)
  | PInf, _ | _, PInf => PInf
  | NInf, c | c, NInf => c
  end.

(** [Math.min (a, b)] *)
Definition min (a b : number) : number :=
  match a, b with
  | NaN, _ | _, NaN => NaN
  | Num x, Num y => Num (Rmin x y)
  | NInf, _ | _, NInf => NInf
  | PInf, c | c, PInf => c
  end.

End Math.

(** ** Shared values of react-native-reanimated

    The framework is an external collaborator.  What the two components rely
    on is kept: a shared value holds a current number; assigning a number
    replaces it (and drops a running animation); assigning [withSpring]
    starts an animation towards a target and leaves the current number to be
    moved by the framework on later frames. *)

Module Reanimated.

Record SpringConfig : Type := { damping : number; stiffness : number }.

Record Animation : Type := withSpring { toValue : number; config : SpringConfig }.

Record SharedValue : Type := mkShared { value : number; animation : option Animation }.

Definition useSharedValue (init : number) : SharedValue := mkShared init None.

(** [sv.value = v] *)
Definition assign (sv : SharedValue) (v : number) : SharedValue := mkShared v None.

(** [sv.value = withSpring (...)] *)
Definition animate (sv : SharedValue) (a : Animation) : SharedValue :=
  mkShared (value sv) (Some a).

End Reanimated.

Export Reanimated.

(** What a function call evaluates to: a value, or a thrown error. *)
Inductive completion (A : Type) : Type :=
| Normal (a : A)
| Throw (message : string).

Arguments Normal {A} a.
Arguments Throw {A} message.

(** A destructured prop with a default. *)
Definition withDefault {A : Type} (d : A) (prop : option A) : A :=
  match prop with Some a => a | None => d end.

(** ** src/components/game/Joystick.tsx *)

Module Joystick.

Section Component.

(** The functions that can be passed as [onMove]. *)
Variable callback : Type.

Record JoystickProps : Type := {
  onMove : option callback;
  size : option number;
  stickSize : option number;
  baseColor : option string;
  stickColor : option string
}.

(** The part of a pan gesture event that the handlers read. *)
Record PanEvent : Type := { translationX : number; translationY : number }.

(** The two shared values of one mounted joystick. *)
Record State : Type := { translateX : SharedValue; translateY : SharedValue }.

(** A call handed over to the RN runtime: [scheduleOnRN (fn, x, y)]. *)
Record Scheduled : Type := scheduleOnRN { fn : callback; arg_x : number; arg_y : number }.

Definition initialState : State :=
  {| translateX := useSharedValue (Num 0); translateY := useSharedValue (Num 0) |}.

Section Body.

Variable props : JoystickProps.

Definition sizeOf : number := withDefault (Num 150) (size props).
Definition stickSizeOf : number := withDefault (Num 60) (stickSize props).

Definition maxDistance : number := ((sizeOf - stickSizeOf) / Num 2)%js.

Definition reportMove (x y : number) : list Scheduled :=
  match onMove props with
  | Some f =>
      let normalizedX := (x / maxDistance)%js in
      let normalizedY := (y / maxDistance)%js in
      [scheduleOnRN f normalizedX normalizedY]
  | None => []
  end.

(** [panGesture.onUpdate] *)
Definition onUpdate (event : PanEvent) (st : State) : State * list Scheduled :=
  let distance :=
    Math.sqrt (pow2 (translationX event) + pow2 (translationY event))%js in
  let st' :=
    if (distance <=? maxDistance)%js then
      {| translateX := assign (translateX st) (translationX event);
         translateY := assign (translateY st) (translationY event) |}
    else
      let angle := Math.atan2 (translationY event) (translationX event) in
      {| translateX := assign (translateX st) (Math.cos angle * maxDistance)%js;
         translateY := assign (translateY st) (Math.sin angle * maxDistance)%js |}
  in
  (st', reportMove (value (translateX st')) (value (translateY st'))).

Definition springBack : Animation :=
  withSpring (Num 0) {| damping := Num 15; stiffness := Num 150 |}.

(** [panGesture.onEnd] *)
Definition onEnd (st : State) : State * list Scheduled :=
  let st' :=
    {| translateX := animate (translateX st) springBack;
       translateY := animate (translateY st) springBack |} in
  (st', reportMove (Num 0) (Num 0)).

(** [animatedStyle]: the stick's visual offset. *)
Definition animatedStyle (st : State) : number * number :=
  (value (translateX st), value (translateY st)).

End Body.

(** A mounted joystick: its state and the handlers of its pan gesture. *)
Record Mounted : Type := {
  mounted_props : JoystickProps;
  mounted_state : State;
  mounted_onUpdate : PanEvent -> State -> State * list Scheduled;
  mounted_onEnd : State -> State * list Scheduled
}.

(** The component function.  Its body has no [throw]: every props value
    yields a mounted joystick. *)
Definition Joystick (props : JoystickProps) : completion Mounted :=
  Normal {| mounted_props := props;
            mounted_state := initialState;
            mounted_onUpdate := onUpdate props;
            mounted_onEnd := onEnd props |}.

End Component.

Arguments onMove {callback} _.
Arguments size {callback} _.
Arguments stickSize {callback} _.
Arguments baseColor {callback} _.
Arguments stickColor {callback} _.
Arguments scheduleOnRN {callback} fn arg_x arg_y.
Arguments sizeOf {callback} props.
Arguments stickSizeOf {callback} props.
Arguments maxDistance {callback} props.
Arguments reportMove {callback} props x y.
Arguments onUpdate {callback} props event st.
Arguments onEnd {callback} props st.
Arguments mounted_props {callback} _.
Arguments mounted_state {callback} _.
Arguments mounted_onUpdate {callback} _ _ _.
Arguments mounted_onEnd {callback} _ _.
Arguments Joystick {callback} props.

End Joystick.

(** ** The drag update on binary64 numbers

    The arithmetic of [maxDistance], [reportMove] and [panGesture.onUpdate]
    once more, on the numbers JavaScript computes with: IEEE 754 binary64,
    every operation rounded to nearest.  [Math.atan2], [Math.cos] and
    [Math.sin] are implementation-approximated in ECMAScript: what the engine
    provides is a [MathImpl].  [x ** 2] is the rounded product [x * x].  The
    listener is taken as present: the second component of the result is the
    pair it is called with. *)

Module Binary64.

Import PrimFloat.

#[local] Set Warnings "-inexact-float".

Local Open Scope float_scope.

Record MathImpl : Type := {
  atan2 : float -> float -> float;
  cos : float -> float;
  sin : float -> float
}.

Definition maxDistance (size stickSize : float) : float := (size - stickSize) / 2.

Definition reportMove (maxDistance x y : float) : float * float :=
  let normalizedX := x / maxDistance in
  let normalizedY := y / maxDistance in
  (normalizedX, normalizedY).

(** [panGesture.onUpdate]: the new offsets of the stick, and the report. *)
Definition onUpdate (M : MathImpl) (size stickSize translationX translationY : float)
  : (float * float) * (float * float) :=
  let maxDistance := maxDistance size stickSize in
  let distance := sqrt (translationX * translationX + translationY * translationY) in
  let translate :=
    if distance <=? maxDistance then (translationX, translationY)
    else
      let angle := atan2 M translationY translationX in
      (cos M angle * maxDistance, sin M angle * maxDistance)
  in
  (translate, reportMove maxDistance (fst translate) (snd translate)).



End Binary64.

(** ** src/app/index.tsx *)

Module GameScreen.

Record State : Type := {
  characterX : SharedValue;
  characterY : SharedValue;
  joystickX : SharedValue;
  joystickY : SharedValue
}.

Section Screen.

(** [Dimensions.get ("window")] *)
Variables width height : number.

Definition initialState : State :=
  {| characterX := useSharedValue (width / Num 2)%js;
     characterY := useSharedValue (height / Num 2)%js;
     joystickX := useSharedValue (Num 0);
     joystickY := useSharedValue (Num 0) |}.

(** The update made when the joystick is deflected: the then-branch of the
    frame callback.  [moveSpeed] and [characterSize] are the constants [5]
    and [50] in the source; they are binders here so that the laws can be
    stated for every speed, and [frameCallback] below fixes them as the
    source does. *)
Definition advance (moveSpeed characterSize : number) (st : State) : State :=
  let newX := (value (characterX st) + value (joystickX st) * moveSpeed)%js in
  let newY := (value (characterY st) + value (joystickY st) * moveSpeed)%js in
  let minX := (characterSize / Num 2)%js in
  let maxX := (width - characterSize / Num 2)%js in
  let minY := (characterSize / Num 2)%js in
  let maxY := (height - characterSize / Num 2)%js in
  {| characterX := assign (characterX st) (Math.max minX (Math.min maxX newX));
     characterY := assign (characterY st) (Math.max minY (Math.min maxY newY));
     joystickX := joystickX st;
     joystickY := joystickY st |}.

(** The body of the frame callback. *)
Definition tick (moveSpeed characterSize : number) (st : State) : State :=
  if ne0 (value (joystickX st)) || ne0 (value (joystickY st)) then
    advance moveSpeed characterSize st
  else st.

Definition moveSpeed : number := Num 5.
Definition characterSize : number := Num 50.

(** The callback given to [useFrameCallback]. *)
Definition frameCallback (st : State) : State := tick moveSpeed characterSize st.

(** [handleJoystickMove] *)
Definition handleJoystickMove (x y : number) (st : State) : State :=
  {| characterX := characterX st;
     characterY := characterY st;
     joystickX := assign (joystickX st) x;
     joystickY := assign (joystickY st) y |}.

(** What happens to a mounted screen: the joystick's listener runs, or a
    frame is drawn. *)
Inductive Event : Type :=
| JoystickMoved (x y : number)
| Frame.

Definition step (speed csize : number) (st : State) (e : Event) : State :=
  match e with
  | JoystickMoved x y => handleJoystickMove x y st
  | Frame => tick speed csize st
  end.

Definition run (speed csize : number) (events : list Event) (st : State) : State :=
  fold_left (step speed csize) events st.

(** The states the screen goes through, one after each event. *)
Fixpoint trace (speed csize : number) (events : list Event) (st : State) : list State :=
  match events with
  | [] => []
  | e :: rest =>
      let st' := step speed csize st e in
      st' :: trace speed csize rest st'
  end.

End Screen.

End GameScreen.

(** ** Vocabulary of the specification *)

Module Spec.

(** The displacement constrained to the disc of radius [m]: itself inside
    the disc, its radial projection onto the boundary circle outside. *)
Definition circleProjection (m dx dy : R) : R * R :=
  let d := sqrt (dx * dx + dy * dy) in
  if Rle_dec d m then (dx, dy) else (m * (dx / d), m * (dy / d)).

(** A configuration the specification calls misconfigured: a diameter that
    is not positive, or a stick as large as the base. *)
Definition misconfigured {callback : Type} (p : Joystick.JoystickProps callback) : Prop :=
  exists s k : R,
    Joystick.sizeOf p = Num s /\ Joystick.stickSizeOf p = Num k /\
    (s <= 0 \/ k <= 0 \/ s <= k).

(** The same props with the listener left out. *)
Definition withoutOnMove {callback : Type} (p : Joystick.JoystickProps callback)
  : Joystick.JoystickProps callback :=
  {| Joystick.onMove := None;
     Joystick.size := Joystick.size p;
     Joystick.stickSize := Joystick.stickSize p;
     Joystick.baseColor := Joystick.baseColor p;
     Joystick.stickColor := Joystick.stickColor p |}.

(** The interval [[lo, hi]]. *)
Definition within (lo hi : R) (n : number) : Prop :=
  match n with Num r => lo <= r <= hi | _ => False end.

(** The character keeps its whole extent inside the window
    [[0, w] x [0, h]]: its centre stays half a size away from every edge. *)
Definition inBounds (csize w h : R) (st : GameScreen.State) : Prop :=
  within (csize / 2) (w - csize / 2) (value (GameScreen.characterX st)) /\
  within (csize / 2) (h - csize / 2) (value (GameScreen.characterY st)).

(** The stored joystick input has both components in [[-1, 1]]. *)
Definition unitInput (st : GameScreen.State) : Prop :=
  within (-1) 1 (value (GameScreen.joystickX st)) /\
  within (-1) 1 (value (GameScreen.joystickY st)).

(** An event that hands the screen an input with components in [[-1, 1]]. *)
Definition unitEvent (e : GameScreen.Event) : Prop :=
  match e with
  | GameScreen.JoystickMoved x y => within (-1) 1 x /\ within (-1) 1 y
  | GameScreen.Frame => True
  end.

(** The invariant of the screen: the character inside the window, the
    stored input inside the unit square. *)
Definition settled (csize w h : R) (st : GameScreen.State) : Prop :=
  inBounds csize w h st /\ unitInput st.

End Spec.

(** ** Configurations and states of the scenarios *)

Module Scenario.

(** The joystick as [src/app/index.tsx] mounts it, with a listener. *)
Definition demoProps : Joystick.JoystickProps unit :=
  {| Joystick.onMove := Some tt;
     Joystick.size := Some (Num 150);
     Joystick.stickSize := Some (Num 60);
     Joystick.baseColor := Some "rgba(100, 100, 100, 0.3)"%string;
     Joystick.stickColor := Some "rgba(50, 50, 50, 0.7)"%string |}.

(** A stick as large as its base. *)
Definition equalDiameters : Joystick.JoystickProps unit :=
  {| Joystick.onMove := Some tt;
     Joystick.size := Some (Num 60);
     Joystick.stickSize := Some (Num 60);
     Joystick.baseColor := None;
     Joystick.stickColor := None |}.

Definition drag (dx dy : R) : Joystick.PanEvent :=
  {| Joystick.translationX := Num dx; Joystick.translationY := Num dy |}.

Definition stickAt (x y : R) : Joystick.State :=
  {| Joystick.translateX := useSharedValue (Num x);
     Joystick.translateY := useSharedValue (Num y) |}.

(** The screen with the character at [(x, y)] and the input [(jx, jy)]. *)
Definition screenAt (x y jx jy : R) : GameScreen.State :=
  {| GameScreen.characterX := useSharedValue (Num x);
     GameScreen.characterY := useSharedValue (Num y);
     GameScreen.joystickX := useSharedValue (Num jx);
     GameScreen.joystickY := useSharedValue (Num jy) |}.

End Scenario.

(** ** Round views *)

Module JoystickView.

(** The style of a round view: what [Character] and [Joystick] set on
    their views. *)
Record CircleStyle : Type := {
  width : number;
  height : number;
  borderRadius : number;
  backgroundColor : string
}.

End JoystickView.

(** ** src/components/game/Character.tsx *)

Module Character.

Record CharacterProps : Type := {
  x : SharedValue;
  y : SharedValue;
  size : option number;
  color : option string
}.

Section Body.

Variable props : CharacterProps.

Definition sizeOf : number := withDefault (Num 50) (size props).
Definition colorOf : string := withDefault "#FF5555"%string (color props).

(** [animatedStyle]: the translation of the view's top-left corner. *)
Definition animatedStyle : number * number :=
  ((value (x props) - sizeOf / Num 2)%js, (value (y props) - sizeOf / Num 2)%js).

(** The style of the [Animated.View]. *)
Definition view : JoystickView.CircleStyle :=
  {| JoystickView.width := sizeOf;
     JoystickView.height := sizeOf;
     JoystickView.borderRadius := (sizeOf / Num 2)%js;
     JoystickView.backgroundColor := colorOf |}.

End Body.

End Character.

(** ** src/app/index.tsx: the screen with its joystick and its character

    The gesture handlers hand their calls to the RN runtime with
    [scheduleOnRN]; the runtime runs them later, in the order in which they
    were scheduled.  The calls not yet run are kept in [scheduled]. *)

Module App.

(** What [onMove] is on this screen: a function on the screen's state. *)
Definition listener : Type := number -> number -> GameScreen.State -> GameScreen.State.

(** The props of [<Joystick ... />]. *)
Definition joystickProps : Joystick.JoystickProps listener :=
  {| Joystick.onMove := Some GameScreen.handleJoystickMove;
     Joystick.size := Some (Num 150);
     Joystick.stickSize := Some (Num 60);
     Joystick.baseColor := Some "rgba(100, 100, 100, 0.3)"%string;
     Joystick.stickColor := Some "rgba(50, 50, 50, 0.7)"%string |}.

(** The props of [<Character ... />]. *)
Definition characterProps (st : GameScreen.State) : Character.CharacterProps :=
  {| Character.x := GameScreen.characterX st;
     Character.y := GameScreen.characterY st;
     Character.size := Some (Num 50);
     Character.color := Some "#FF5555"%string |}.

Record State : Type := {
  screen : GameScreen.State;
  stick : Joystick.State;
  scheduled : list (Joystick.Scheduled listener)
}.

Inductive Event : Type :=
| PanUpdate (event : Joystick.PanEvent)
| PanEnd
| RunScheduled
| FrameDrawn.

Section Screen.

(** [Dimensions.get ("window")] *)
Variables width height : number.

Definition initialState : State :=
  {| screen := GameScreen.initialState width height;
     stick := Joystick.initialState;
     scheduled := [] |}.

(** One event of the mounted screen.  [props] is [joystickProps] in the
    source; it is a binder here so that other configurations of the
    joystick can be put on the same screen, and [step] below fixes it as the
    source does. *)
Definition stepWith (props : Joystick.JoystickProps listener)
                    (st : State) (e : Event) : State :=
  match e with
  | PanUpdate event =>
      let (stick', calls) := Joystick.onUpdate props event (stick st) in
      {| screen := screen st; stick := stick'; scheduled := scheduled st ++ calls |}
  | PanEnd =>
      let (stick', calls) := Joystick.onEnd props (stick st) in
      {| screen := screen st; stick := stick'; scheduled := scheduled st ++ calls |}
  | RunScheduled =>
      match scheduled st with
      | [] => st
      | call :: rest =>
          {| screen := Joystick.fn _ call (Joystick.arg_x _ call)
                                         (Joystick.arg_y _ call) (screen st);
             stick := stick st;
             scheduled := rest |}
      end
  | FrameDrawn =>
      {| screen := GameScreen.frameCallback width height (screen st);
         stick := stick st;
         scheduled := scheduled st |}
  end.

Definition step : State -> Event -> State := stepWith joystickProps.

Definition runWith (props : Joystick.JoystickProps listener)
                   (events : list Event) (st : State) : State :=
  fold_left (stepWith props) events st.

Definition run : list Event -> State -> State := runWith joystickProps.

End Screen.

End App.

(** ** Further vocabulary *)

Module Geometry.

(** [Infinity] or [-Infinity]. *)
Definition infinite (n : number) : Prop :=
  match n with PInf | NInf => True | _ => False end.

(** A pan event with a finite displacement. *)
Definition finiteDrag (e : Joystick.PanEvent) : Prop :=
  exists dx dy : R,
    e = {| Joystick.translationX := Num dx; Joystick.translationY := Num dy |}.

Definition finiteEvent (e : App.Event) : Prop :=
  match e with
  | App.PanUpdate event => finiteDrag event
  | _ => True
  end.

(** A pair of numbers that is a point of the unit disc. *)
Definition inUnitDisc (a b : number) : Prop :=
  match a, b with
  | Num x, Num y => x * x + y * y <= 1
  | _, _ => False
  end.

(** The character as drawn, a square of side [side] with its top-left
    corner at the translation of [Character.animatedStyle], lies in the
    window [[0, w] x [0, h]]. *)
Definition drawnInside (w h : R) (c : Character.CharacterProps) : Prop :=
  exists left top side : R,
    Character.animatedStyle c = (Num left, Num top) /\
    JoystickView.width (Character.view c) = Num side /\
    JoystickView.height (Character.view c) = Num side /\
    0 <= left /\ left + side <= w /\ 0 <= top /\ top + side <= h.

(** Every call that waits for the RN runtime is a call of
    [handleJoystickMove]. *)
Definition onlyMoves (calls : list (Joystick.Scheduled App.listener)) : Prop :=
  Forall (fun call => Joystick.fn _ call = GameScreen.handleJoystickMove) calls.

(** The invariant of the mounted screen: the character inside the window,
    the stored input in the unit disc, and only calls of
    [handleJoystickMove] with an argument in the unit disc waiting. *)
Definition steady (w h : R) (st : App.State) : Prop :=
  Spec.inBounds 50 w h (App.screen st) /\
  inUnitDisc (value (GameScreen.joystickX (App.screen st)))
             (value (GameScreen.joystickY (App.screen st))) /\
  Forall (fun call =>
            Joystick.fn _ call = GameScreen.handleJoystickMove /\
            inUnitDisc (Joystick.arg_x _ call) (Joystick.arg_y _ call))
         (App.scheduled st).

(** The character is lost: both coordinates are [NaN]. *)
Definition lost (st : GameScreen.State) : Prop :=
  value (GameScreen.characterX st) = NaN /\ value (GameScreen.characterY st) = NaN.

End Geometry.

(** ** Further configurations and states *)

Module Cases.

(** A stick larger than its base. *)
Definition oversizedStick : Joystick.JoystickProps unit :=
  {| Joystick.onMove := Some tt;
     Joystick.size := Some (Num 60);
     Joystick.stickSize := Some (Num 150);
     Joystick.baseColor := None;
     Joystick.stickColor := None |}.

(** The joystick of [index.tsx] with a stick as large as its base. *)
Definition equalOnScreen : Joystick.JoystickProps App.listener :=
  {| Joystick.onMove := Some GameScreen.handleJoystickMove;
     Joystick.size := Some (Num 150);
     Joystick.stickSize := Some (Num 150);
     Joystick.baseColor := None;
     Joystick.stickColor := None |}.

(** A screen whose stored horizontal input is [NaN]. *)
Definition screenWithNaNInput : GameScreen.State :=
  {| GameScreen.characterX := useSharedValue (Num 500);
     GameScreen.characterY := useSharedValue (Num 500);
     GameScreen.joystickX := useSharedValue NaN;
     GameScreen.joystickY := useSharedValue (Num 0) |}.

(** A character with the default size at the position of a screen state. *)
Definition defaultCharacter (st : GameScreen.State) : Character.CharacterProps :=
  {| Character.x := GameScreen.characterX st;
     Character.y := GameScreen.characterY st;
     Character.size := None;
     Character.color := None |}.

(** A drag to the lower right far beyond the radius, its call run, a frame,
    the release, its call run, a frame. *)
Definition session : list App.Event :=
  [App.PanUpdate (Scenario.drag 100 100); App.RunScheduled; App.FrameDrawn;
   App.PanEnd; App.RunScheduled; App.FrameDrawn].

End Cases.

(** * Properties *)

(** ** Finite arithmetic *)

Section FiniteArithmetic.

Lemma sub_Num (x y : R) : (Num x - Num y)%js = Num (x - y).
Proof. reflexivity. Qed.

Lemma div_Num (x y : R) : y <> 0 -> (Num x / Num y)%js = Num (x / y).
Proof.
  intros Hy. unfold JS.div.
  destruct (Req_dec_T y 0) as [E | _]; [contradiction | reflexivity].
Qed.

Lemma div_zero_zero (x : R) : x = 0 -> (Num x / Num 0)%js = NaN.
Proof.
  intros ->. unfold JS.div.
  destruct (Req_dec_T 0 0) as [_ | N]; [ | now elim N ].
  destruct (Rlt_dec 0 0) as [L | _]; [ lra | reflexivity ].
Qed.

Lemma le_Num_true (x y : R) : x <= y -> (Num x <=? Num y)%js = true.
Proof.
  intros H. unfold JS.le. destruct (Rle_dec x y); [reflexivity | contradiction].
Qed.

Lemma le_Num_false (x y : R) : y < x -> (Num x <=? Num y)%js = false.
Proof.
  intros H. unfold JS.le. destruct (Rle_dec x y); [lra | reflexivity].
Qed.

Lemma ne0_Num_true (x : R) : x <> 0 -> ne0 (Num x) = true.
Proof.
  intros H. unfold ne0. destruct (Req_dec_T x 0); [contradiction | reflexivity].
Qed.

Lemma ne0_zero : ne0 (Num 0) = false.
Proof.
  unfold ne0. destruct (Req_dec_T 0 0) as [_ | N]; [reflexivity | now elim N].
Qed.

Lemma sqrt_Num (x : R) : 0 <= x -> Math.sqrt (Num x) = Num (sqrt x).
Proof.
  intros H. unfold Math.sqrt. destruct (Rlt_dec x 0); [lra | reflexivity].
Qed.

Lemma sum_squares_nonneg (a b : R) : 0 <= a * a + b * b.
Proof. nra. Qed.

(** The distance computed by the drag handler, for a finite displacement. *)
Lemma distance_Num (dx dy : R) :
  Math.sqrt (pow2 (Num dx) + pow2 (Num dy))%js = Num (sqrt (dx * dx + dy * dy)).
Proof. simpl. apply sqrt_Num, sum_squares_nonneg. Qed.

End FiniteArithmetic.

(** ** [Math.atan2] is the angle of the point *)

Section Angle.

Variables x y : R.

Let hyp : R := sqrt (x * x + y * y).

Lemma hypot_scaled : x <> 0 -> hyp = Rabs x * sqrt (1 + (y / x)²).
Proof.
  intros Hx. unfold hyp.
  assert (Hs : 0 <= 1 + (y / x)²) by (unfold Rsqr; nra).
  apply sqrt_lem_1.
  - apply sum_squares_nonneg.
  - apply Rmult_le_pos; [apply Rabs_pos | apply sqrt_pos].
  - transitivity ((Rabs x * Rabs x) * (sqrt (1 + (y / x)²) * sqrt (1 + (y / x)²))); [ring | ].
    rewrite sqrt_sqrt by exact Hs.
    replace (Rabs x * Rabs x) with (x * x)
      by (unfold Rabs; destruct (Rcase_abs x); ring).
    unfold Rsqr. field. exact Hx.
Qed.

Lemma root_pos : 0 < sqrt (1 + (y / x)²).
Proof. apply sqrt_lt_R0. unfold Rsqr. nra. Qed.

Lemma cos_Ratan2 : x <> 0 \/ y <> 0 -> cos (Math.Ratan2 y x) = x / hyp.
Proof.
  intros Hnz. unfold Math.Ratan2.
  pose proof root_pos as Hr.
  destruct (Rlt_dec 0 x) as [Hx | Hx].
  - rewrite cos_atan, hypot_scaled by lra.
    rewrite Rabs_pos_eq by lra. field. lra.
  - destruct (Rlt_dec x 0) as [Hx' | Hx'].
    + assert (E : hyp = - x * sqrt (1 + (y / x)²)).
      { rewrite hypot_scaled by lra. rewrite Rabs_left by lra. reflexivity. }
      destruct (Rle_dec 0 y).
      * rewrite neg_cos, cos_atan, E. field. lra.
      * unfold Rminus. rewrite cos_plus, cos_neg, sin_neg, cos_PI, sin_PI, cos_atan, E.
        field. lra.
    + assert (x = 0) by lra. subst x.
      destruct (Rlt_dec 0 y); [ rewrite cos_PI2; lra | ].
      destruct (Rlt_dec y 0); [ rewrite cos_neg, cos_PI2; lra | ].
      lra.
Qed.

Lemma sin_Ratan2 : x <> 0 \/ y <> 0 -> sin (Math.Ratan2 y x) = y / hyp.
Proof.
  intros Hnz. unfold Math.Ratan2.
  pose proof root_pos as Hr.
  destruct (Rlt_dec 0 x) as [Hx | Hx].
  - rewrite sin_atan, hypot_scaled by lra.
    rewrite Rabs_pos_eq by lra. field. lra.
  - destruct (Rlt_dec x 0) as [Hx' | Hx'].
    + assert (E : hyp = - x * sqrt (1 + (y / x)²)).
      { rewrite hypot_scaled by lra. rewrite Rabs_left by lra. reflexivity. }
      destruct (Rle_dec 0 y).
      * rewrite neg_sin, sin_atan, E. field. lra.
      * unfold Rminus. rewrite sin_plus, cos_neg, sin_neg, cos_PI, sin_PI, sin_atan, E.
        field. lra.
    + assert (x = 0) by lra. subst x.
      assert (Ey : hyp = Rabs y).
      { unfold hyp. replace (0 * 0 + y * y) with (y²) by (unfold Rsqr; ring).
        apply sqrt_Rsqr_abs. }
      rewrite Ey.
      destruct (Rlt_dec 0 y).
      * rewrite sin_PI2, Rabs_pos_eq by lra. field. lra.
      * destruct (Rlt_dec y 0); [ | lra ].
        rewrite sin_neg, sin_PI2, Rabs_left by lra. field. lra.
Qed.

End Angle.

(** ** The joystick *)

Section JoystickLaws.

Import Joystick.

Variable callback : Type.

Implicit Types (p : JoystickProps callback) (f : callback) (st : State).

(** [maxDistance] for finite diameters. *)
Lemma maxDistance_Num p (s k : R) :
  sizeOf p = Num s -> stickSizeOf p = Num k -> maxDistance p = Num ((s - k) / 2).
Proof.
  intros Hs Hk. unfold maxDistance. rewrite Hs, Hk, sub_Num.
  apply div_Num. lra.
Qed.

Lemma reportMove_Num p f (m x y : R) :
  onMove p = Some f -> maxDistance p = Num m -> m <> 0 ->
  reportMove p (Num x) (Num y) = [scheduleOnRN f (Num (x / m)) (Num (y / m))].
Proof.
  intros Hf Hm Hnz. unfold reportMove. rewrite Hf, Hm.
  now rewrite !div_Num by exact Hnz.
Qed.

(** The two branches of the drag handler, for a finite displacement and a
    finite radius. *)
Lemma onUpdate_inside p (m dx dy : R) st :
  maxDistance p = Num m -> sqrt (dx * dx + dy * dy) <= m ->
  onUpdate p {| translationX := Num dx; translationY := Num dy |} st
  = ({| translateX := mkShared (Num dx) None; translateY := mkShared (Num dy) None |},
     reportMove p (Num dx) (Num dy)).
Proof.
  intros Hm Hle. unfold onUpdate.
  cbn [translationX translationY]. rewrite distance_Num, Hm, le_Num_true by exact Hle.
  reflexivity.
Qed.

Lemma onUpdate_outside p (m dx dy : R) st :
  maxDistance p = Num m -> m < sqrt (dx * dx + dy * dy) ->
  onUpdate p {| translationX := Num dx; translationY := Num dy |} st
  = ({| translateX := mkShared (Num (cos (Math.Ratan2 dy dx) * m)) None;
        translateY := mkShared (Num (sin (Math.Ratan2 dy dx) * m)) None |},
     reportMove p (Num (cos (Math.Ratan2 dy dx) * m)) (Num (sin (Math.Ratan2 dy dx) * m))).
Proof.
  intros Hm Hlt. unfold onUpdate.
  cbn [translationX translationY]. rewrite distance_Num, Hm, le_Num_false by exact Hlt.
  reflexivity.
Qed.

Lemma squares_below_radius (m dx dy : R) :
  0 <= m -> sqrt (dx * dx + dy * dy) <= m -> dx * dx + dy * dy <= m * m.
Proof.
  intros Hm Hle.
  pose proof (sqrt_sqrt _ (sum_squares_nonneg dx dy)) as E.
  pose proof (sqrt_pos (dx * dx + dy * dy)) as P.
  rewrite <- E. nra.
Qed.

Lemma drag_outside_unit (dx dy m : R) :
  0 < m -> m < sqrt (dx * dx + dy * dy) ->
  cos (Math.Ratan2 dy dx) = dx / sqrt (dx * dx + dy * dy) /\
  sin (Math.Ratan2 dy dx) = dy / sqrt (dx * dx + dy * dy) /\
  cos (Math.Ratan2 dy dx) * cos (Math.Ratan2 dy dx)
  + sin (Math.Ratan2 dy dx) * sin (Math.Ratan2 dy dx) = 1.
Proof.
  intros Hpos Hlt.
  assert (Hnz : dx <> 0 \/ dy <> 0).
  { destruct (Req_dec_T dx 0) as [Ex | Nx]; [ | now left ].
    destruct (Req_dec_T dy 0) as [Ey | Ny]; [ | now right ].
    exfalso. subst dx dy.
    replace (0 * 0 + 0 * 0) with 0 in Hlt by ring. rewrite sqrt_0 in Hlt. lra. }
  split; [ now apply cos_Ratan2 | split; [ now apply sin_Ratan2 | ] ].
  pose proof (sin2_cos2 (Math.Ratan2 dy dx)) as E. unfold Rsqr in E. lra.
Qed.

Lemma report_ext f (x y x' y' : R) :
  x = x' -> y = y' ->
  [scheduleOnRN f (Num x) (Num y)] = [scheduleOnRN f (Num x') (Num y')].
Proof. now intros -> ->. Qed.

(** C1.  A drag that stays within the travel radius is reported as it is,
    divided by the radius: for finite diameters with
    [maxDistance = (size - stickSize) / 2 > 0] and a displacement [(dx, dy)]
    with [sqrt (dx² + dy²) <= maxDistance], the drag update moves the stick
    to [(dx, dy)] and hands the listener exactly
    [(dx / maxDistance, dy / maxDistance)]. *)
Theorem drag_within_radius_reports_quotient :
  forall p f (s k dx dy : R) st,
    onMove p = Some f ->
    sizeOf p = Num s -> stickSizeOf p = Num k ->
    0 < (s - k) / 2 ->
    sqrt (dx * dx + dy * dy) <= (s - k) / 2 ->
    maxDistance p = Num ((s - k) / 2) /\
    onUpdate p {| translationX := Num dx; translationY := Num dy |} st
    = ({| translateX := mkShared (Num dx) None; translateY := mkShared (Num dy) None |},
       [scheduleOnRN f (Num (dx / ((s - k) / 2))) (Num (dy / ((s - k) / 2)))]).
Proof.
  intros p f s k dx dy st Hf Hs Hk Hpos Hle.
  pose proof (maxDistance_Num p s k Hs Hk) as Hm.
  split; [exact Hm | ].
  rewrite (onUpdate_inside p _ dx dy st Hm Hle).
  f_equal. apply reportMove_Num; [assumption | assumption | lra].
Qed.

(** C2.  A drag beyond the travel radius is reported as the unit vector of
    its direction: for [sqrt (dx² + dy²) > maxDistance > 0] the listener
    receives [(cos a, sin a)] with [a = atan2 (dy, dx)], a vector of
    magnitude 1 that points the way the drag does. *)
Theorem drag_beyond_radius_reports_unit_vector :
  forall p f (s k dx dy : R) st,
    onMove p = Some f ->
    sizeOf p = Num s -> stickSizeOf p = Num k ->
    0 < (s - k) / 2 ->
    (s - k) / 2 < sqrt (dx * dx + dy * dy) ->
    let a := Math.Ratan2 dy dx in
    Math.atan2 (Num dy) (Num dx) = Num a /\
    snd (onUpdate p {| translationX := Num dx; translationY := Num dy |} st)
    = [scheduleOnRN f (Num (cos a)) (Num (sin a))] /\
    sqrt (cos a * cos a + sin a * sin a) = 1 /\
    cos a = dx / sqrt (dx * dx + dy * dy) /\
    sin a = dy / sqrt (dx * dx + dy * dy).
Proof.
  intros p f s k dx dy st Hf Hs Hk Hpos Hlt a.
  pose proof (maxDistance_Num p s k Hs Hk) as Hm.
  split; [reflexivity | ].
  split.
  - rewrite (onUpdate_outside p _ dx dy st Hm Hlt). cbn [snd]. fold a.
    rewrite (reportMove_Num p f _ _ _ Hf Hm) by lra.
    apply report_ext; field; lra.
  - destruct (drag_outside_unit dx dy _ Hpos Hlt) as (Hc & Hsn & Hsq).
    fold a in Hc, Hsn, Hsq.
    split; [ | split; assumption ].
    rewrite Hsq. apply sqrt_1.
Qed.


(** C7.  Releasing the stick reports [(0, 0)] at once: for every state the
    drag left behind, the drag-end handler hands the listener exactly
    [(0, 0)] in the same step in which it starts the spring back to the
    centre; the stick's offset has not moved yet and the springs towards
    [0] are still running when the report is made. *)
Theorem drag_end_reports_zero_immediately :
  forall p f (s k : R) st,
    onMove p = Some f ->
    sizeOf p = Num s -> stickSizeOf p = Num k ->
    0 < (s - k) / 2 ->
    snd (onEnd p st) = [scheduleOnRN f (Num 0) (Num 0)] /\
    animatedStyle (fst (onEnd p st)) = animatedStyle st /\
    animation (translateX (fst (onEnd p st))) = Some springBack /\
    animation (translateY (fst (onEnd p st))) = Some springBack /\
    toValue springBack = Num 0.
Proof.
  intros p f s k st Hf Hs Hk Hpos.
  pose proof (maxDistance_Num p s k Hs Hk) as Hm.
  split; [ | repeat split ].
  unfold onEnd. cbn [snd].
  rewrite (reportMove_Num p f _ _ _ Hf Hm) by lra.
  apply report_ext; field; lra.
Qed.

(** C9.  The listener is optional and has no part in where the stick goes.
    Without [onMove], a drag update still moves the stick by the clamping
    rule (to [(dx, dy)] within the radius, to
    [(cos a * maxDistance, sin a * maxDistance)] beyond it) and a drag end
    still starts both springs back to [0]; neither hands anything to any
    listener, and the handlers return nothing but the two offsets.  Props
    with the same diameters and any [onMove] yield the same offsets, for
    every event. *)
Theorem offsets_independent_of_listener :
  forall p (s k dx dy : R) st,
    onMove p = None ->
    sizeOf p = Num s -> stickSizeOf p = Num k ->
    (sqrt (dx * dx + dy * dy) <= (s - k) / 2 ->
     onUpdate p {| translationX := Num dx; translationY := Num dy |} st
     = ({| translateX := mkShared (Num dx) None;
           translateY := mkShared (Num dy) None |}, [])) /\
    ((s - k) / 2 < sqrt (dx * dx + dy * dy) ->
     onUpdate p {| translationX := Num dx; translationY := Num dy |} st
     = ({| translateX := mkShared (Num (cos (Math.Ratan2 dy dx) * ((s - k) / 2))) None;
           translateY := mkShared (Num (sin (Math.Ratan2 dy dx) * ((s - k) / 2))) None |},
        [])) /\
    onEnd p st
    = ({| translateX := mkShared (value (translateX st)) (Some springBack);
          translateY := mkShared (value (translateY st)) (Some springBack) |}, []) /\
    toValue springBack = Num 0 /\
    (forall (p' : JoystickProps callback) (event : PanEvent),
       sizeOf p' = sizeOf p -> stickSizeOf p' = stickSizeOf p ->
       fst (onUpdate p' event st) = fst (onUpdate p event st) /\
       fst (onEnd p' st) = fst (onEnd p st)).
Proof.
  intros p s k dx dy st Hnone Hs Hk.
  pose proof (maxDistance_Num p s k Hs Hk) as Hm.
  assert (Hsilent : forall x y, reportMove p x y = []).
  { intros x y. unfold reportMove. now rewrite Hnone. }
  split; [ | split; [ | split; [ | split ] ] ].
  - intros Hle. now rewrite (onUpdate_inside p _ dx dy st Hm Hle), Hsilent.
  - intros Hlt. now rewrite (onUpdate_outside p _ dx dy st Hm Hlt), Hsilent.
  - unfold onEnd. now rewrite Hsilent.
  - reflexivity.
  - intros p' event Hs' Hk'. split; [ | reflexivity ].
    unfold onUpdate, maxDistance. cbn [fst]. now rewrite Hs', Hk'.
Qed.

(** C8, as the code has it.  The component function validates nothing.
    Every misconfigured props value (a diameter that is not positive, or a
    stick as large as the base) mounts a joystick with the usual state and
    handlers, and no error is thrown.  Such a joystick can then report [NaN]:
    when the two diameters are equal ([maxDistance = 0]), the drag update at
    displacement [(0, 0)] hands [(NaN, NaN)] to the listener, from every
    state. *)
Theorem construction_never_fails :
  forall p,
    Spec.misconfigured p ->
    Joystick p = Normal {| mounted_props := p;
                           mounted_state := initialState;
                           mounted_onUpdate := onUpdate p;
                           mounted_onEnd := onEnd p |} /\
    (forall message : string, Joystick p <> Throw message) /\
    (forall f (s : R) st,
       onMove p = Some f ->
       sizeOf p = Num s -> stickSizeOf p = Num s ->
       maxDistance p = Num 0 /\
       snd (onUpdate p {| translationX := Num 0; translationY := Num 0 |} st)
       = [scheduleOnRN f NaN NaN]).
Proof.
  intros p _.
  split; [ reflexivity | split; [ discriminate | ] ].
  intros f s st Hf Hs Hk.
  assert (Hm : maxDistance p = Num 0).
  { rewrite (maxDistance_Num p s s Hs Hk). f_equal. field. }
  split; [ exact Hm | ].
  assert (Hle : sqrt (0 * 0 + 0 * 0) <= 0).
  { replace (0 * 0 + 0 * 0) with 0 by ring. rewrite sqrt_0. apply Rle_refl. }
  rewrite (onUpdate_inside p _ 0 0 st Hm Hle). cbn [snd].
  unfold reportMove. rewrite Hf, Hm.
  now rewrite div_zero_zero.
Qed.

End JoystickLaws.

(** ** The joystick's scenarios *)

Section JoystickScenarios.

Import Joystick Scenario.

Lemma sqrt_axis (a : R) : 0 <= a -> sqrt (a * a + 0 * 0) = a.
Proof.
  intros H. replace (a * a + 0 * 0) with (a * a) by ring. now apply sqrt_square.
Qed.

Lemma Ratan2_positive_axis (a : R) : 0 < a -> Math.Ratan2 0 a = 0.
Proof.
  intros H. unfold Math.Ratan2. destruct (Rlt_dec 0 a); [ | contradiction ].
  replace (0 / a) with 0 by (field; lra). apply atan_0.
Qed.

(** Scenario 1: with [size = 150] and [stickSize = 60] the radius is 45,
    and the drag [(30, 0)] is reported as [(30 / 45, 0)]. *)
Lemma drag_30_0_reports_two_thirds :
  sqrt (30 * 30 + 0 * 0) <= (150 - 60) / 2 /\
  maxDistance demoProps = Num 45 /\
  snd (onUpdate demoProps (drag 30 0) initialState)
  = [scheduleOnRN tt (Num (30 / 45)) (Num 0)].
Proof.
  assert (H : sqrt (30 * 30 + 0 * 0) <= (150 - 60) / 2)
    by (rewrite sqrt_axis; lra).
  split; [ exact H | ].
  destruct (drag_within_radius_reports_quotient unit demoProps tt 150 60 30 0
              initialState eq_refl eq_refl eq_refl ltac:(lra) H) as [Hm Hu].
  split.
  - rewrite Hm. f_equal. lra.
  - unfold drag. rewrite Hu. cbn [snd]. apply report_ext; lra.
Defined.

(** Scenario 2: with the same configuration the drag [(100, 0)] is reported
    as [(1, 0)]. *)
Lemma drag_100_0_reports_unit_x :
  (150 - 60) / 2 < sqrt (100 * 100 + 0 * 0) /\
  snd (onUpdate demoProps (drag 100 0) initialState)
  = [scheduleOnRN tt (Num 1) (Num 0)].
Proof.
  assert (H : (150 - 60) / 2 < sqrt (100 * 100 + 0 * 0))
    by (rewrite sqrt_axis; lra).
  split; [ exact H | ].
  destruct (drag_beyond_radius_reports_unit_vector unit demoProps tt 150 60 100 0
              initialState eq_refl eq_refl eq_refl ltac:(lra) H) as (_ & Hu & _).
  unfold drag. rewrite Hu.
  rewrite Ratan2_positive_axis by lra.
  apply report_ext; [ apply cos_0 | apply sin_0 ].
Defined.


(** Releasing a stick held at [(30, 40)]. *)
Lemma release_from_30_40 :
  0 < (150 - 60) / 2 /\
  snd (onEnd demoProps (stickAt 30 40)) = [scheduleOnRN tt (Num 0) (Num 0)] /\
  animatedStyle (fst (onEnd demoProps (stickAt 30 40))) = (Num 30, Num 40).
Proof.
  assert (H : 0 < (150 - 60) / 2) by lra.
  split; [ exact H | ].
  destruct (drag_end_reports_zero_immediately unit demoProps tt 150 60
              (stickAt 30 40) eq_refl eq_refl eq_refl H) as (Hr & Hs & _).
  split; [ exact Hr | exact Hs ].
Defined.

(** A joystick mounted without a listener: the drag [(30, 0)] moves the
    stick to [(30, 0)], the release starts the springs, and nothing is
    scheduled. *)
Lemma silent_joystick :
  onMove (Spec.withoutOnMove demoProps) = None /\
  sqrt (30 * 30 + 0 * 0) <= (150 - 60) / 2 /\
  onUpdate (Spec.withoutOnMove demoProps) (drag 30 0) initialState
  = (stickAt 30 0, []) /\
  onEnd (Spec.withoutOnMove demoProps) (stickAt 30 0)
  = ({| translateX := mkShared (Num 30) (Some springBack);
        translateY := mkShared (Num 0) (Some springBack) |}, []) /\
  fst (onUpdate demoProps (drag 100 0) initialState)
  = fst (onUpdate (Spec.withoutOnMove demoProps) (drag 100 0) initialState).
Proof.
  assert (H : sqrt (30 * 30 + 0 * 0) <= (150 - 60) / 2)
    by (rewrite sqrt_axis; lra).
  split; [ reflexivity | split; [ exact H | ] ].
  destruct (offsets_independent_of_listener unit (Spec.withoutOnMove demoProps)
              150 60 30 0 initialState eq_refl eq_refl eq_refl)
    as (Hin & _ & _ & _ & _).
  destruct (offsets_independent_of_listener unit (Spec.withoutOnMove demoProps)
              150 60 30 0 (stickAt 30 0) eq_refl eq_refl eq_refl)
    as (_ & _ & Hend & _ & _).
  destruct (offsets_independent_of_listener unit (Spec.withoutOnMove demoProps)
              150 60 30 0 initialState eq_refl eq_refl eq_refl)
    as (_ & _ & _ & _ & Hsame).
  split; [ exact (Hin H) | split; [ exact Hend | ] ].
  exact (proj1 (Hsame demoProps (drag 100 0) eq_refl eq_refl)).
Defined.

(** C8, against the code.  A stick as large as its base is misconfigured,
    yet the component function returns normally, and the very first drag
    update, at displacement [(0, 0)], hands [(NaN, NaN)] to the listener. *)
Lemma equal_diameters_mount_and_report_NaN :
  Spec.misconfigured equalDiameters /\
  Joystick equalDiameters
  = Normal {| mounted_props := equalDiameters;
              mounted_state := initialState;
              mounted_onUpdate := onUpdate equalDiameters;
              mounted_onEnd := onEnd equalDiameters |} /\
  snd (onUpdate equalDiameters (drag 0 0) initialState)
  = [scheduleOnRN tt NaN NaN].
Proof.
  split; [ | split; [ reflexivity | ] ].
  - exists 60, 60. repeat split; try reflexivity. right; right; lra.
  - assert (Hm : maxDistance equalDiameters = Num 0).
    { rewrite (maxDistance_Num unit equalDiameters 60 60 eq_refl eq_refl).
      f_equal. lra. }
    unfold drag.
    rewrite (onUpdate_inside unit equalDiameters 0 0 0 initialState Hm)
      by (rewrite sqrt_axis; lra).
    cbn [snd]. unfold reportMove. cbn [onMove equalDiameters]. rewrite Hm.
    now rewrite div_zero_zero.
Qed.

Lemma equalDiameters_misconfigured : Spec.misconfigured equalDiameters.
Proof.
  exists 60, 60. repeat split; try reflexivity. right; right; lra.
Qed.

(** With equal diameters the first touch reports [NaN], here with the stick
    still on its way back from [(3, 4)]. *)
Lemma equal_diameters_first_touch :
  Spec.misconfigured equalDiameters /\
  onMove equalDiameters = Some tt /\
  sizeOf equalDiameters = Num 60 /\ stickSizeOf equalDiameters = Num 60 /\
  snd (onUpdate equalDiameters (drag 0 0) (fst (onEnd equalDiameters (stickAt 3 4))))
  = [scheduleOnRN tt NaN NaN].
Proof.
  split; [ exact equalDiameters_misconfigured | ].
  split; [ reflexivity | split; [ reflexivity | split; [ reflexivity | ] ] ].
  exact (proj2 (proj2 (proj2 (construction_never_fails unit equalDiameters
                                 equalDiameters_misconfigured))
                  tt 60 (fst (onEnd equalDiameters (stickAt 3 4)))
                  eq_refl eq_refl eq_refl)).
Defined.

End JoystickScenarios.

(** ** The tiny joystick, on binary64 numbers *)

Section Binary64Cases.

Import PrimFloat.

Local Open Scope float_scope.


End Binary64Cases.

(** ** The per-frame integrator *)

Section Clamp.

Variables lo hi c : R.

Lemma clamp_within : lo <= hi -> lo <= Rmax lo (Rmin hi c) <= hi.
Proof.
  intros H. unfold Rmax, Rmin.
  destruct (Rle_dec hi c); destruct (Rle_dec lo _); lra.
Qed.

Lemma clamp_degenerate : hi < lo -> Rmax lo (Rmin hi c) = lo.
Proof.
  intros H. unfold Rmax, Rmin.
  destruct (Rle_dec hi c); destruct (Rle_dec lo _); lra.
Qed.

Lemma clamp_inside : lo <= c <= hi -> Rmax lo (Rmin hi c) = c.
Proof.
  intros H. unfold Rmax, Rmin.
  destruct (Rle_dec hi c); destruct (Rle_dec lo _); lra.
Qed.

Lemma clamp_below : c <= lo -> Rmax lo (Rmin hi c) = lo.
Proof.
  intros H. unfold Rmax, Rmin.
  destruct (Rle_dec hi c); destruct (Rle_dec lo _); lra.
Qed.

End Clamp.

Section IntegratorSteps.

Import GameScreen.

Variables w h speed cs : R.

Implicit Type st : State.

(** The then-branch on finite numbers. *)
Lemma advance_finite st (x y jx jy : R) :
  value (characterX st) = Num x -> value (characterY st) = Num y ->
  value (joystickX st) = Num jx -> value (joystickY st) = Num jy ->
  advance (Num w) (Num h) (Num speed) (Num cs) st
  = {| characterX := mkShared (Num (Rmax (cs / 2) (Rmin (w - cs / 2) (x + jx * speed)))) None;
       characterY := mkShared (Num (Rmax (cs / 2) (Rmin (h - cs / 2) (y + jy * speed)))) None;
       joystickX := joystickX st;
       joystickY := joystickY st |}.
Proof.
  intros Hx Hy Hjx Hjy. unfold advance.
  rewrite Hx, Hy, Hjx, Hjy, div_Num by lra.
  reflexivity.
Qed.

Lemma tick_moving (width height moveSpeed characterSize : number) st (jx jy : R) :
  value (joystickX st) = Num jx -> value (joystickY st) = Num jy ->
  jx <> 0 \/ jy <> 0 ->
  tick width height moveSpeed characterSize st
  = advance width height moveSpeed characterSize st.
Proof.
  intros Hjx Hjy Hnz. unfold tick. rewrite Hjx, Hjy.
  destruct Hnz as [H | H].
  - now rewrite (ne0_Num_true _ H).
  - now rewrite (ne0_Num_true _ H), orb_true_r.
Qed.

Lemma tick_idle (width height moveSpeed characterSize : number) st :
  value (joystickX st) = Num 0 -> value (joystickY st) = Num 0 ->
  tick width height moveSpeed characterSize st = st.
Proof.
  intros Hjx Hjy. unfold tick. now rewrite Hjx, Hjy, ne0_zero.
Qed.

(** One frame with a deflected joystick, on finite numbers. *)
Lemma tick_finite st (x y jx jy : R) :
  value (characterX st) = Num x -> value (characterY st) = Num y ->
  value (joystickX st) = Num jx -> value (joystickY st) = Num jy ->
  jx <> 0 \/ jy <> 0 ->
  value (characterX (tick (Num w) (Num h) (Num speed) (Num cs) st))
  = Num (Rmax (cs / 2) (Rmin (w - cs / 2) (x + jx * speed))) /\
  value (characterY (tick (Num w) (Num h) (Num speed) (Num cs) st))
  = Num (Rmax (cs / 2) (Rmin (h - cs / 2) (y + jy * speed))).
Proof.
  intros Hx Hy Hjx Hjy Hnz.
  rewrite (tick_moving _ _ _ _ st jx jy Hjx Hjy Hnz).
  rewrite (advance_finite st x y jx jy Hx Hy Hjx Hjy).
  split; reflexivity.
Qed.

Lemma within_Num (lo hi : R) (n : number) :
  Spec.within lo hi n -> exists r : R, n = Num r /\ lo <= r <= hi.
Proof.
  destruct n as [r | | | ]; cbn; intros H; try contradiction.
  exists r. now split.
Qed.

Let settled st : Prop := Spec.settled cs w h st.

Hypothesis window_fits : cs / 2 <= w - cs / 2 /\ cs / 2 <= h - cs / 2.

Lemma tick_settled st :
  settled st -> settled (tick (Num w) (Num h) (Num speed) (Num cs) st).
Proof.
  intros [[Hbx Hby] [Hix Hiy]].
  destruct (within_Num _ _ _ Hbx) as (x & Ex & Hx).
  destruct (within_Num _ _ _ Hby) as (y & Ey & Hy).
  destruct (within_Num _ _ _ Hix) as (jx & Ejx & Hjx).
  destruct (within_Num _ _ _ Hiy) as (jy & Ejy & Hjy).
  destruct (Req_dec_T jx 0) as [Zx | Nx].
  - destruct (Req_dec_T jy 0) as [Zy | Ny].
    + subst jx jy. rewrite (tick_idle _ _ _ _ st Ejx Ejy).
      repeat split; assumption.
    + destruct (tick_finite st x y jx jy Ex Ey Ejx Ejy (or_intror Ny)) as [Tx Ty].
      unfold settled, Spec.settled, Spec.inBounds, Spec.unitInput. rewrite Tx, Ty.
      rewrite (tick_moving _ _ _ _ st jx jy Ejx Ejy (or_intror Ny)).
      cbn [advance joystickX joystickY Spec.within].
      repeat split; try apply clamp_within; try tauto.
  - destruct (tick_finite st x y jx jy Ex Ey Ejx Ejy (or_introl Nx)) as [Tx Ty].
    unfold settled, Spec.settled, Spec.inBounds, Spec.unitInput. rewrite Tx, Ty.
    rewrite (tick_moving _ _ _ _ st jx jy Ejx Ejy (or_introl Nx)).
    cbn [advance joystickX joystickY Spec.within].
    repeat split; try apply clamp_within; try tauto.
Qed.

Lemma step_settled st (e : Event) :
  Spec.unitEvent e -> settled st ->
  settled (step (Num w) (Num h) (Num speed) (Num cs) st e).
Proof.
  destruct e as [jx jy | ]; cbn [step Spec.unitEvent].
  - intros [Hx Hy] [Hb _]. split; [ exact Hb | split; assumption ].
  - intros _. apply tick_settled.
Qed.

Lemma run_settled (events : list Event) st :
  Forall Spec.unitEvent events -> settled st ->
  settled (run (Num w) (Num h) (Num speed) (Num cs) events st).
Proof.
  unfold run. revert st.
  induction events as [ | e events IH]; intros st Hev Hst; cbn [fold_left].
  - exact Hst.
  - inversion Hev as [ | ? ? He Hrest ]; subst.
    apply IH; [ exact Hrest | now apply step_settled ].
Qed.

Lemma trace_settled (events : list Event) st :
  Forall Spec.unitEvent events -> settled st ->
  Forall (Spec.inBounds cs w h)
         (trace (Num w) (Num h) (Num speed) (Num cs) events st).
Proof.
  revert st.
  induction events as [ | e events IH]; intros st Hev Hst; cbn [trace].
  - constructor.
  - inversion Hev as [ | ? ? He Hrest ]; subst.
    pose proof (step_settled st e He Hst) as Hstep.
    constructor; [ exact (proj1 Hstep) | now apply IH ].
Qed.

Lemma initial_settled : settled (initialState (Num w) (Num h)).
Proof.
  unfold settled, Spec.settled, Spec.inBounds, Spec.unitInput, initialState.
  cbn [characterX characterY joystickX joystickY useSharedValue value].
  rewrite !div_Num by lra. cbn [Spec.within].
  repeat split; lra.
Qed.

End IntegratorSteps.

Section IntegratorLaws.

Import GameScreen Scenario.

(** C4.  The character never leaves the window.  For a window that can
    hold the character ([csize <= w] and [csize <= h]), every speed [> 0]
    and every sequence of listener calls with components in [[-1, 1]] and
    frames: the screen starts with the character in bounds, and from the
    initial state, as from every state in bounds, the state after every
    event has [characterX] in [[csize / 2, w - csize / 2]] and [characterY]
    in [[csize / 2, h - csize / 2]]. *)
Theorem position_stays_in_bounds :
  forall (w h speed csize : R) (events : list Event),
    csize / 2 <= w - csize / 2 -> csize / 2 <= h - csize / 2 ->
    0 < speed ->
    Forall Spec.unitEvent events ->
    Spec.inBounds csize w h (initialState (Num w) (Num h)) /\
    Forall (Spec.inBounds csize w h)
      (trace (Num w) (Num h) (Num speed) (Num csize) events
             (initialState (Num w) (Num h))) /\
    forall st : State,
      Spec.inBounds csize w h st -> Spec.unitInput st ->
      Forall (Spec.inBounds csize w h)
        (trace (Num w) (Num h) (Num speed) (Num csize) events st) /\
      Spec.inBounds csize w h
        (run (Num w) (Num h) (Num speed) (Num csize) events st).
Proof.
  intros w h speed csize events Hw Hh _ Hev.
  pose proof (initial_settled w h csize (conj Hw Hh)) as H0.
  split; [ exact (proj1 H0) | ].
  split.
  - exact (trace_settled w h speed csize (conj Hw Hh) events _ Hev H0).
  - intros st Hb Hi. split.
    + exact (trace_settled w h speed csize (conj Hw Hh) events st Hev (conj Hb Hi)).
    + exact (proj1 (run_settled w h speed csize (conj Hw Hh) events st Hev (conj Hb Hi))).
Qed.

(** C5.  One frame with a deflected joystick moves each axis on its own:
    the new coordinate is the candidate [position + input * speed] clamped
    to that axis' interval, with no normalisation of the input; a candidate
    inside the interval is taken as it is. *)
Theorem tick_clamps_each_axis :
  forall (w h speed csize x y jx jy : R) (st : State),
    value (characterX st) = Num x -> value (characterY st) = Num y ->
    value (joystickX st) = Num jx -> value (joystickY st) = Num jy ->
    jx <> 0 \/ jy <> 0 ->
    let st' := tick (Num w) (Num h) (Num speed) (Num csize) st in
    value (characterX st')
    = Num (Rmax (csize / 2) (Rmin (w - csize / 2) (x + jx * speed))) /\
    value (characterY st')
    = Num (Rmax (csize / 2) (Rmin (h - csize / 2) (y + jy * speed))) /\
    (csize / 2 <= x + jx * speed <= w - csize / 2 ->
     value (characterX st') = Num (x + jx * speed)) /\
    (csize / 2 <= y + jy * speed <= h - csize / 2 ->
     value (characterY st') = Num (y + jy * speed)).
Proof.
  intros w h speed csize x y jx jy st Hx Hy Hjx Hjy Hnz st'.
  destruct (tick_finite w h speed csize st x y jx jy Hx Hy Hjx Hjy Hnz) as [Tx Ty].
  fold st' in Tx, Ty.
  repeat split; try assumption.
  - intros Hin. rewrite Tx. f_equal. now apply clamp_inside.
  - intros Hin. rewrite Ty. f_equal. now apply clamp_inside.
Qed.

(** C6.  A frame with the zero input changes nothing: whatever the
    position, the speed and the window, [tick] returns the state it was
    given, and so does any number of such frames.  It is a short circuit and
    not an addition of zero followed by the clamp: a position outside the
    window stays where it is, where [advance] would pull it inside. *)
Theorem zero_input_tick_is_identity :
  forall (width height speed csize : number) (cx cy : SharedValue)
         (ax ay : option Animation) (n : nat),
    let st := {| characterX := cx; characterY := cy;
                 joystickX := mkShared (Num 0) ax;
                 joystickY := mkShared (Num 0) ay |} in
    tick width height speed csize st = st /\
    Nat.iter n (tick width height speed csize) st = st /\
    run width height speed csize (repeat Frame n) st = st /\
    frameCallback (Num 1000) (Num 1000) (screenAt 0 0 0 0) = screenAt 0 0 0 0 /\
    value (characterX (advance (Num 1000) (Num 1000) moveSpeed characterSize
                               (screenAt 0 0 0 0))) = Num 25.
Proof.
  intros width height speed csize cx cy ax ay n st.
  assert (Hid : tick width height speed csize st = st)
    by (apply tick_idle; reflexivity).
  split; [ exact Hid | ].
  split; [ | split; [ | split ] ].
  - induction n as [ | n IH]; [ reflexivity | ].
    rewrite Nat.iter_succ, IH. exact Hid.
  - unfold run. induction n as [ | n IH]; cbn [repeat fold_left step]; [ reflexivity | ].
    rewrite Hid. exact IH.
  - apply tick_idle; reflexivity.
  - unfold moveSpeed, characterSize.
    rewrite (advance_finite 1000 1000 5 50 (screenAt 0 0 0 0) 0 0 0 0)
      by reflexivity.
    cbn [characterX value]. f_equal.
    rewrite clamp_below; lra.
Qed.

(** C10.  The clamp is total and decided by its outer [Math.max]: after one
    frame with a deflected joystick, an axis whose interval is empty
    ([min > max]) sits at its lower bound, and an axis whose interval is not
    empty sits inside it, wherever the character was before. *)
Theorem tick_clamp_is_total :
  forall (w h speed csize x y jx jy : R) (st : State),
    value (characterX st) = Num x -> value (characterY st) = Num y ->
    value (joystickX st) = Num jx -> value (joystickY st) = Num jy ->
    jx <> 0 \/ jy <> 0 ->
    let st' := tick (Num w) (Num h) (Num speed) (Num csize) st in
    (w - csize / 2 < csize / 2 -> value (characterX st') = Num (csize / 2)) /\
    (h - csize / 2 < csize / 2 -> value (characterY st') = Num (csize / 2)) /\
    (csize / 2 <= w - csize / 2 ->
     Spec.within (csize / 2) (w - csize / 2) (value (characterX st'))) /\
    (csize / 2 <= h - csize / 2 ->
     Spec.within (csize / 2) (h - csize / 2) (value (characterY st'))).
Proof.
  intros w h speed csize x y jx jy st Hx Hy Hjx Hjy Hnz st'.
  destruct (tick_finite w h speed csize st x y jx jy Hx Hy Hjx Hjy Hnz) as [Tx Ty].
  fold st' in Tx, Ty. rewrite Tx, Ty. cbn [Spec.within].
  split; [ intros Hb; f_equal; now apply clamp_degenerate | ].
  split; [ intros Hb; f_equal; now apply clamp_degenerate | ].
  split; intros Hb; now apply clamp_within.
Qed.

End IntegratorLaws.

(** ** The integrator's scenarios *)

Section IntegratorScenarios.

Import GameScreen Scenario.

Lemma clamp_value (lo hi c v : R) :
  (lo <= c <= hi /\ v = c) \/ (c <= lo <= hi /\ v = lo) \/ (lo <= hi <= c /\ v = hi) ->
  Num (Rmax lo (Rmin hi c)) = Num v.
Proof.
  intros H. f_equal. unfold Rmax, Rmin.
  destruct (Rle_dec hi c); destruct (Rle_dec lo _); lra.
Qed.

(** Scenario 3 and more: in a window of 1000 by 1000, a deflection to the
    right followed by frames keeps the character in bounds. *)
Lemma three_frames_in_bounds :
  50 / 2 <= 1000 - 50 / 2 /\ 0 < 5 /\
  Forall Spec.unitEvent [JoystickMoved (Num 1) (Num 0); Frame; Frame; Frame] /\
  Forall (Spec.inBounds 50 1000 1000)
    (trace (Num 1000) (Num 1000) (Num 5) (Num 50)
           [JoystickMoved (Num 1) (Num 0); Frame; Frame; Frame]
           (initialState (Num 1000) (Num 1000))).
Proof.
  assert (Hw : 50 / 2 <= 1000 - 50 / 2) by lra.
  assert (Hs : 0 < 5) by lra.
  assert (He : Forall Spec.unitEvent
                 [JoystickMoved (Num 1) (Num 0); Frame; Frame; Frame])
    by (repeat constructor; cbn; lra).
  split; [ exact Hw | split; [ exact Hs | split; [ exact He | ] ] ].
  exact (proj1 (proj2 (position_stays_in_bounds 1000 1000 5 50
                         [JoystickMoved (Num 1) (Num 0); Frame; Frame; Frame]
                         Hw Hw Hs He))).
Defined.

(** Scenario 4 and the diagonal scenario, with the constants of the source:
    from [(973, 500)] the input [(1, 0)] leads to [(975, 500)], and from
    [(500, 500)] the input [(1, 1)] moves both axes by 5. *)
Lemma clamped_and_diagonal_frames :
  (1 <> 0 \/ 0 <> 0) /\
  value (characterX (frameCallback (Num 1000) (Num 1000) (screenAt 973 500 1 0)))
  = Num 975 /\
  value (characterY (frameCallback (Num 1000) (Num 1000) (screenAt 973 500 1 0)))
  = Num 500 /\
  value (characterX (frameCallback (Num 1000) (Num 1000) (screenAt 500 500 1 1)))
  = Num 505 /\
  value (characterY (frameCallback (Num 1000) (Num 1000) (screenAt 500 500 1 1)))
  = Num 505.
Proof.
  assert (Hone : 1 <> 0) by lra.
  assert (Hnz : 1 <> 0 \/ 0 <> 0) by (left; exact Hone).
  split; [ exact Hnz | ].
  destruct (tick_clamps_each_axis 1000 1000 5 50 973 500 1 0 (screenAt 973 500 1 0)
              eq_refl eq_refl eq_refl eq_refl Hnz) as (Ax & Ay & _ & _).
  destruct (tick_clamps_each_axis 1000 1000 5 50 500 500 1 1 (screenAt 500 500 1 1)
              eq_refl eq_refl eq_refl eq_refl (or_introl Hone))
    as (Bx & By & _ & _).
  unfold frameCallback, moveSpeed, characterSize.
  rewrite Ax, Ay, Bx, By.
  repeat split; apply clamp_value; lra.
Defined.

(** A window narrower than the character, and a character that starts far
    outside a tall window. *)
Lemma narrow_window_frame :
  (1 <> 0 \/ 1 <> 0) /\ 40 - 50 / 2 < 50 / 2 /\ 50 / 2 <= 1000 - 50 / 2 /\
  value (characterX (frameCallback (Num 40) (Num 1000) (screenAt 700 2000 1 1)))
  = Num (50 / 2) /\
  Spec.within (50 / 2) (1000 - 50 / 2)
    (value (characterY (frameCallback (Num 40) (Num 1000) (screenAt 700 2000 1 1)))).
Proof.
  assert (Hnz : 1 <> 0 \/ 1 <> 0) by (left; lra).
  assert (Hx : 40 - 50 / 2 < 50 / 2) by lra.
  assert (Hy : 50 / 2 <= 1000 - 50 / 2) by lra.
  split; [ exact Hnz | split; [ exact Hx | split; [ exact Hy | ] ] ].
  destruct (tick_clamp_is_total 40 1000 5 50 700 2000 1 1 (screenAt 700 2000 1 1)
              eq_refl eq_refl eq_refl eq_refl Hnz) as (Dx & _ & _ & Wy).
  split; [ exact (Dx Hx) | exact (Wy Hy) ].
Defined.

End IntegratorScenarios.

(** * Further properties of the joystick *)

Section Projection.

Variables m dx dy : R.

Lemma circle_norm (c s : R) :
  0 <= m -> c * c + s * s = 1 ->
  sqrt (c * m * (c * m) + s * m * (s * m)) = m.
Proof.
  intros Hm Hcs.
  replace (c * m * (c * m) + s * m * (s * m)) with (m * m * (c * c + s * s)) by ring.
  rewrite Hcs, Rmult_1_r. now apply sqrt_square.
Qed.

(** The angle of a drag that is longer than a radius [m >= 0]. *)
Lemma far_drag_angle :
  0 <= m -> m < sqrt (dx * dx + dy * dy) ->
  cos (Math.Ratan2 dy dx) = dx / sqrt (dx * dx + dy * dy) /\
  sin (Math.Ratan2 dy dx) = dy / sqrt (dx * dx + dy * dy) /\
  cos (Math.Ratan2 dy dx) * cos (Math.Ratan2 dy dx)
  + sin (Math.Ratan2 dy dx) * sin (Math.Ratan2 dy dx) = 1.
Proof.
  intros Hm Hlt.
  assert (Hnz : dx <> 0 \/ dy <> 0).
  { destruct (Req_dec_T dx 0) as [Ex | Nx]; [ | now left ].
    destruct (Req_dec_T dy 0) as [Ey | Ny]; [ | now right ].
    exfalso. rewrite Ex, Ey in Hlt.
    replace (0 * 0 + 0 * 0) with 0 in Hlt by ring. rewrite sqrt_0 in Hlt. lra. }
  split; [ now apply cos_Ratan2 | split; [ now apply sin_Ratan2 | ] ].
  pose proof (sin2_cos2 (Math.Ratan2 dy dx)) as E. unfold Rsqr in E. lra.
Qed.

End Projection.

Section JoystickGeometry.

Import Joystick.

Variable callback : Type.

Implicit Types (p : JoystickProps callback) (f : callback) (st : State).

(** A drag update on finite numbers, for a radius [m >= 0]: the stick goes to
    the circle projection of the drag, and that offset is what
    [reportMove] is called with. *)
Lemma onUpdate_finite p (m dx dy : R) st :
  maxDistance p = Num m -> 0 <= m ->
  exists tx ty : R,
    onUpdate p {| translationX := Num dx; translationY := Num dy |} st
    = ({| translateX := mkShared (Num tx) None; translateY := mkShared (Num ty) None |},
       reportMove p (Num tx) (Num ty)) /\
    sqrt (tx * tx + ty * ty) <= m /\
    tx = fst (Spec.circleProjection m dx dy) /\
    ty = snd (Spec.circleProjection m dx dy).
Proof.
  intros Hm Hpos. unfold Spec.circleProjection.
  destruct (Rle_dec (sqrt (dx * dx + dy * dy)) m) as [Hle | Hgt].
  - exists dx, dy. rewrite (onUpdate_inside _ p m dx dy st Hm Hle).
    repeat split. exact Hle.
  - assert (Hlt : m < sqrt (dx * dx + dy * dy)) by lra.
    destruct (far_drag_angle m dx dy Hpos Hlt) as (Hc & Hs & Hcs).
    exists (cos (Math.Ratan2 dy dx) * m), (sin (Math.Ratan2 dy dx) * m).
    rewrite (onUpdate_outside _ p m dx dy st Hm Hlt). cbn [fst snd].
    repeat split.
    + rewrite circle_norm by assumption. lra.
    + rewrite Hc. unfold Rdiv. ring.
    + rewrite Hs. unfold Rdiv. ring.
Qed.

(** The report of a drag update, for a radius [m > 0]. *)
Lemma onUpdate_report p f (m dx dy : R) st :
  onMove p = Some f -> maxDistance p = Num m -> 0 < m ->
  snd (onUpdate p {| translationX := Num dx; translationY := Num dy |} st)
  = [scheduleOnRN f (Num (fst (Spec.circleProjection m dx dy) / m))
                    (Num (snd (Spec.circleProjection m dx dy) / m))] /\
  fst (Spec.circleProjection m dx dy) / m * (fst (Spec.circleProjection m dx dy) / m)
  + snd (Spec.circleProjection m dx dy) / m * (snd (Spec.circleProjection m dx dy) / m)
  <= 1.
Proof.
  intros Hf Hm Hpos.
  destruct (onUpdate_finite p m dx dy st Hm (Rlt_le _ _ Hpos)) as (tx & ty & E & Hn & Hx & Hy).
  rewrite E. cbn [snd]. rewrite <- Hx, <- Hy.
  split; [ apply reportMove_Num; [ assumption | assumption | lra ] | ].
  pose proof (squares_below_radius m tx ty (Rlt_le _ _ Hpos) Hn) as Hb.
  replace (tx / m * (tx / m) + ty / m * (ty / m))
    with ((tx * tx + ty * ty) / (m * m)) by (field; lra).
  apply Rmult_le_reg_r with (m * m); [ nra | ].
  replace ((tx * tx + ty * ty) / (m * m) * (m * m)) with (tx * tx + ty * ty)
    by (field; lra).
  lra.
Qed.

(** A drag update whose distance is [Infinity]: the else-branch, at the
    angle that [Math.atan2] gives. *)
Lemma onUpdate_unbounded p f (m a : R) (event : PanEvent) st :
  onMove p = Some f -> maxDistance p = Num m -> m <> 0 ->
  Math.sqrt (pow2 (translationX event) + pow2 (translationY event))%js = PInf ->
  Math.atan2 (translationY event) (translationX event) = Num a ->
  onUpdate p event st
  = ({| translateX := mkShared (Num (cos a * m)) None;
        translateY := mkShared (Num (sin a * m)) None |},
     [scheduleOnRN f (Num (cos a)) (Num (sin a))]).
Proof.
  intros Hf Hm Hnz Hd Ha. unfold onUpdate.
  rewrite Hd, Hm, Ha. cbn [JS.le Math.cos Math.sin JS.mul assign value translateX translateY].
  f_equal. rewrite (reportMove_Num _ p f m _ _ Hf Hm Hnz).
  apply report_ext; field; exact Hnz.
Qed.

Lemma opposed (m q v : R) : m < 0 -> 0 < q -> v * q * m * v <= 0.
Proof.
  intros Hm Hq.
  assert (H : 0 <= v * v * q) by (apply Rmult_le_pos; [ nra | lra ]).
  replace (v * q * m * v) with (m * (v * v * q)) by ring. nra.
Qed.

Lemma unit_circle (a : R) : sqrt (cos a * cos a + sin a * sin a) = 1.
Proof.
  pose proof (sin2_cos2 a) as E. unfold Rsqr in E.
  replace (cos a * cos a + sin a * sin a) with 1 by lra. apply sqrt_1.
Qed.

(** X5.  [NaN] goes through: when a component of the displacement is [NaN],
    whatever the configuration, both offsets of the stick become [NaN] and
    the listener is handed [(NaN, NaN)]. *)
Theorem NaN_drag_reports_NaN :
  forall p f (event : PanEvent) st,
    onMove p = Some f ->
    translationX event = NaN \/ translationY event = NaN ->
    onUpdate p event st
    = ({| translateX := mkShared NaN None; translateY := mkShared NaN None |},
       [scheduleOnRN f NaN NaN]).
Proof.
  intros p f [tx ty] st Hf Hnan. unfold onUpdate, reportMove. rewrite Hf.
  cbn [translationX translationY] in *.
  destruct (maxDistance p) as [m | | | ];
    destruct Hnan as [-> | ->];
    [ destruct ty | destruct tx | destruct ty | destruct tx
    | destruct ty | destruct tx | destruct ty | destruct tx ];
    reflexivity.
Qed.

(** X6.  An unbounded drag is a full deflection: when a component of the
    displacement is [Infinity] or [-Infinity] and none is [NaN], for
    [maxDistance > 0] the listener is handed the unit vector of the angle
    that [Math.atan2] gives, and the stick sits on the boundary circle. *)
Theorem infinite_drag_reports_unit_vector :
  forall p f (s k : R) (tx ty : number) st,
    onMove p = Some f ->
    sizeOf p = Num s -> stickSizeOf p = Num k -> 0 < (s - k) / 2 ->
    Geometry.infinite tx \/ Geometry.infinite ty ->
    tx <> NaN -> ty <> NaN ->
    exists a : R,
      Math.atan2 ty tx = Num a /\
      onUpdate p {| translationX := tx; translationY := ty |} st
      = ({| translateX := mkShared (Num (cos a * ((s - k) / 2))) None;
            translateY := mkShared (Num (sin a * ((s - k) / 2))) None |},
         [scheduleOnRN f (Num (cos a)) (Num (sin a))]) /\
      sqrt (cos a * cos a + sin a * sin a) = 1.
Proof.
  intros p f s k tx ty st Hf Hs Hk Hpos Hinf Hx Hy.
  pose proof (maxDistance_Num _ p s k Hs Hk) as Hm.
  assert (Hnz : (s - k) / 2 <> 0) by lra.
  assert (Hd : Math.sqrt (pow2 tx + pow2 ty)%js = PInf).
  { destruct tx, ty; cbn in Hinf; try tauto; try contradiction; reflexivity. }
  assert (Ha : exists a : R, Math.atan2 ty tx = Num a).
  { destruct tx as [x | | | ], ty as [y | | | ]; cbn [Math.atan2];
      try contradiction; try (eexists; reflexivity).
    destruct (Rlt_dec y 0); eexists; reflexivity. }
  destruct Ha as [a Ha]. exists a.
  split; [ exact Ha | split; [ | apply unit_circle ] ].
  exact (onUpdate_unbounded p f _ a {| translationX := tx; translationY := ty |} st
           Hf Hm Hnz Hd Ha).
Qed.

(** X7.  A stick larger than its base turns the joystick into a switch:
    with [maxDistance < 0] every finite drag, the zero drag included, takes
    the else-branch; the listener is handed the unit vector of
    [atan2 (dy, dx)], and the stick is drawn at full travel on the side
    opposite to the drag. *)
Theorem oversized_stick_always_full_deflection :
  forall p f (s k dx dy : R) st,
    onMove p = Some f ->
    sizeOf p = Num s -> stickSizeOf p = Num k -> (s - k) / 2 < 0 ->
    let a := Math.Ratan2 dy dx in
    onUpdate p {| translationX := Num dx; translationY := Num dy |} st
    = ({| translateX := mkShared (Num (cos a * ((s - k) / 2))) None;
          translateY := mkShared (Num (sin a * ((s - k) / 2))) None |},
       [scheduleOnRN f (Num (cos a)) (Num (sin a))]) /\
    sqrt (cos a * cos a + sin a * sin a) = 1 /\
    cos a * ((s - k) / 2) * dx <= 0 /\
    sin a * ((s - k) / 2) * dy <= 0 /\
    Math.Ratan2 0 0 = 0.
Proof.
  intros p f s k dx dy st Hf Hs Hk Hneg a.
  pose proof (maxDistance_Num _ p s k Hs Hk) as Hm.
  set (m := (s - k) / 2) in *.
  assert (Hlt : m < sqrt (dx * dx + dy * dy))
    by (pose proof (sqrt_pos (dx * dx + dy * dy)); lra).
  split.
  { rewrite (onUpdate_outside _ p m dx dy st Hm Hlt). fold a. f_equal.
    rewrite (reportMove_Num _ p f m _ _ Hf Hm) by lra.
    apply report_ext; field; lra. }
  split; [ apply unit_circle | ].
  assert (Hsigns : cos a * m * dx <= 0 /\ sin a * m * dy <= 0).
  { destruct (Req_dec_T dx 0) as [Ex | Nx].
    - destruct (Req_dec_T dy 0) as [Ey | Ny].
      + rewrite Ex, Ey. lra.
      + pose proof (cos_Ratan2 dx dy (or_intror Ny)) as Hc.
        pose proof (sin_Ratan2 dx dy (or_intror Ny)) as Hsn.
        fold a in Hc, Hsn. rewrite Hc, Hsn.
        assert (Hd : 0 < / sqrt (dx * dx + dy * dy))
          by (apply Rinv_0_lt_compat, sqrt_lt_R0; nra).
        unfold Rdiv. split; now apply opposed.
    - pose proof (cos_Ratan2 dx dy (or_introl Nx)) as Hc.
      pose proof (sin_Ratan2 dx dy (or_introl Nx)) as Hsn.
      fold a in Hc, Hsn. rewrite Hc, Hsn.
      assert (Hd : 0 < / sqrt (dx * dx + dy * dy))
        by (apply Rinv_0_lt_compat, sqrt_lt_R0; nra).
      unfold Rdiv. split; now apply opposed. }
  split; [ exact (proj1 Hsigns) | split; [ exact (proj2 Hsigns) | ] ].
  unfold Math.Ratan2.
  destruct (Rlt_dec 0 0) as [L | _]; [ lra | reflexivity ].
Qed.

End JoystickGeometry.

(** * Further properties of the integrator *)

Section NaNArithmetic.

Lemma add_NaN_r (a : number) : (a + NaN)%js = NaN.
Proof. now destruct a. Qed.

Lemma add_NaN_l (a : number) : (NaN + a)%js = NaN.
Proof. now destruct a. Qed.

Lemma mul_NaN_l (a : number) : (NaN * a)%js = NaN.
Proof. now destruct a. Qed.

Lemma min_NaN_r (a : number) : Math.min a NaN = NaN.
Proof. now destruct a. Qed.

Lemma max_NaN_r (a : number) : Math.max a NaN = NaN.
Proof. now destruct a. Qed.

End NaNArithmetic.

Section ClampStep.

Variables lo hi x d : R.

(** From inside the interval, the clamped candidate lies between the
    position and the candidate. *)
Lemma clamp_between :
  lo <= x <= hi ->
  (0 <= d -> 0 <= Rmax lo (Rmin hi (x + d)) - x <= d) /\
  (d <= 0 -> d <= Rmax lo (Rmin hi (x + d)) - x <= 0).
Proof.
  intros H. unfold Rmax, Rmin.
  destruct (Rle_dec hi (x + d)); destruct (Rle_dec lo _); split; intros; lra.
Qed.

End ClampStep.

Section IntegratorMotion.

Import GameScreen.

Lemma tick_keeps_input (width height speed csize : number) (st : State) :
  joystickX (tick width height speed csize st) = joystickX st /\
  joystickY (tick width height speed csize st) = joystickY st.
Proof.
  unfold tick.
  destruct (ne0 (value (joystickX st)) || ne0 (value (joystickY st))); now split.
Qed.

(** One frame from a position inside the window, on finite numbers: the
    new coordinates, each between the old one and the candidate. *)
Lemma tick_towards (w h speed cs x y jx jy : R) (st : State) :
  value (characterX st) = Num x -> value (characterY st) = Num y ->
  value (joystickX st) = Num jx -> value (joystickY st) = Num jy ->
  cs / 2 <= x <= w - cs / 2 -> cs / 2 <= y <= h - cs / 2 ->
  exists x' y' : R,
    value (characterX (tick (Num w) (Num h) (Num speed) (Num cs) st)) = Num x' /\
    value (characterY (tick (Num w) (Num h) (Num speed) (Num cs) st)) = Num y' /\
    x' = Rmax (cs / 2) (Rmin (w - cs / 2) (x + jx * speed)) /\
    y' = Rmax (cs / 2) (Rmin (h - cs / 2) (y + jy * speed)).
Proof.
  intros Hx Hy Hjx Hjy Bx By.
  eexists. eexists.
  split; [ | split; [ | split; reflexivity ] ].
  - destruct (Req_dec_T jx 0) as [Zx | Nx].
    + destruct (Req_dec_T jy 0) as [Zy | Ny].
      * rewrite Zx in Hjx. rewrite Zy in Hjy.
        rewrite (tick_idle _ _ _ _ st Hjx Hjy), Hx, Zx.
        f_equal. rewrite clamp_inside; lra.
      * exact (proj1 (tick_finite w h speed cs st x y jx jy Hx Hy Hjx Hjy (or_intror Ny))).
    + exact (proj1 (tick_finite w h speed cs st x y jx jy Hx Hy Hjx Hjy (or_introl Nx))).
  - destruct (Req_dec_T jx 0) as [Zx | Nx].
    + destruct (Req_dec_T jy 0) as [Zy | Ny].
      * rewrite Zx in Hjx. rewrite Zy in Hjy.
        rewrite (tick_idle _ _ _ _ st Hjx Hjy), Hy, Zy.
        f_equal. rewrite clamp_inside; lra.
      * exact (proj2 (tick_finite w h speed cs st x y jx jy Hx Hy Hjx Hjy (or_intror Ny))).
    + exact (proj2 (tick_finite w h speed cs st x y jx jy Hx Hy Hjx Hjy (or_introl Nx))).
Qed.

(** X8.  A frame never moves the character against its input.  From a
    position inside the window and for a speed [>= 0], each coordinate moves
    in the direction of its own input or stays: it does not decrease when
    the input is [>= 0] and does not increase when the input is [<= 0], so a
    zero input on one axis freezes that axis whatever the other axis does;
    and a character that stands on a wall with an input that does not point
    away from it stays on that wall. *)
Theorem frame_never_moves_against_input :
  forall (w h speed csize x y jx jy : R) (st : State),
    value (characterX st) = Num x -> value (characterY st) = Num y ->
    value (joystickX st) = Num jx -> value (joystickY st) = Num jy ->
    csize / 2 <= x <= w - csize / 2 -> csize / 2 <= y <= h - csize / 2 ->
    0 <= speed ->
    exists x' y' : R,
      value (characterX (tick (Num w) (Num h) (Num speed) (Num csize) st)) = Num x' /\
      value (characterY (tick (Num w) (Num h) (Num speed) (Num csize) st)) = Num y' /\
      (0 <= jx -> x <= x') /\ (jx <= 0 -> x' <= x) /\
      (0 <= jy -> y <= y') /\ (jy <= 0 -> y' <= y) /\
      (x = w - csize / 2 -> 0 <= jx -> x' = x) /\
      (x = csize / 2 -> jx <= 0 -> x' = x) /\
      (y = h - csize / 2 -> 0 <= jy -> y' = y) /\
      (y = csize / 2 -> jy <= 0 -> y' = y).
Proof.
  intros w h speed csize x y jx jy st Hx Hy Hjx Hjy Bx By Hs.
  destruct (tick_towards w h speed csize x y jx jy st Hx Hy Hjx Hjy Bx By)
    as (x' & y' & Tx & Ty & Ex & Ey).
  exists x', y'.
  destruct (clamp_between (csize / 2) (w - csize / 2) x (jx * speed) Bx) as [Px Nx].
  destruct (clamp_between (csize / 2) (h - csize / 2) y (jy * speed) By) as [Py Ny].
  rewrite <- Ex in Px, Nx. rewrite <- Ey in Py, Ny.
  assert (Wx : csize / 2 <= x' <= w - csize / 2)
    by (rewrite Ex; apply clamp_within; lra).
  assert (Wy : csize / 2 <= y' <= h - csize / 2)
    by (rewrite Ey; apply clamp_within; lra).
  assert (Ux : 0 <= jx -> x <= x').
  { intros Hj. assert (Hd : 0 <= jx * speed) by nra. specialize (Px Hd). lra. }
  assert (Dx : jx <= 0 -> x' <= x).
  { intros Hj. assert (Hd : jx * speed <= 0) by nra. specialize (Nx Hd). lra. }
  assert (Uy : 0 <= jy -> y <= y').
  { intros Hj. assert (Hd : 0 <= jy * speed) by nra. specialize (Py Hd). lra. }
  assert (Dy : jy <= 0 -> y' <= y).
  { intros Hj. assert (Hd : jy * speed <= 0) by nra. specialize (Ny Hd). lra. }
  split; [ exact Tx | split; [ exact Ty | ] ].
  split; [ exact Ux | split; [ exact Dx | split; [ exact Uy | split; [ exact Dy | ] ] ] ].
  split; [ intros E Hj; specialize (Ux Hj); lra | ].
  split; [ intros E Hj; specialize (Dx Hj); lra | ].
  split; [ intros E Hj; specialize (Uy Hj); lra | ].
  intros E Hj; specialize (Dy Hj); lra.
Qed.

Lemma advance_NaN_x (width height speed csize : number) (st : State) :
  value (characterX st) = NaN \/ value (joystickX st) = NaN ->
  value (characterX (advance width height speed csize st)) = NaN.
Proof.
  intros H. unfold advance. cbn [characterX assign value].
  destruct H as [-> | ->].
  - now rewrite add_NaN_l, min_NaN_r, max_NaN_r.
  - now rewrite mul_NaN_l, add_NaN_r, min_NaN_r, max_NaN_r.
Qed.

Lemma advance_NaN_y (width height speed csize : number) (st : State) :
  value (characterY st) = NaN \/ value (joystickY st) = NaN ->
  value (characterY (advance width height speed csize st)) = NaN.
Proof.
  intros H. unfold advance. cbn [characterY assign value].
  destruct H as [-> | ->].
  - now rewrite add_NaN_l, min_NaN_r, max_NaN_r.
  - now rewrite mul_NaN_l, add_NaN_r, min_NaN_r, max_NaN_r.
Qed.

Lemma tick_lost (width height speed csize : number) (st : State) :
  Geometry.lost st -> Geometry.lost (tick width height speed csize st).
Proof.
  intros [Hx Hy]. unfold tick.
  destruct (ne0 (value (joystickX st)) || ne0 (value (joystickY st))).
  - split; [ apply advance_NaN_x | apply advance_NaN_y ]; now left.
  - now split.
Qed.

(** X9.  [NaN] is caught by no clamp.  A frame with a [NaN] input on an axis
    makes that coordinate [NaN] ([Math.min] and [Math.max] return [NaN]),
    and a coordinate that is [NaN] stays [NaN] through every later sequence
    of listener calls and frames, whatever the inputs, the speed and the
    window. *)
Theorem NaN_position_is_permanent :
  forall (width height speed csize : number),
    (forall st : State,
       value (joystickX st) = NaN ->
       value (characterX (tick width height speed csize st)) = NaN) /\
    (forall st : State,
       value (joystickY st) = NaN ->
       value (characterY (tick width height speed csize st)) = NaN) /\
    (forall (events : list Event) (st : State),
       value (characterX st) = NaN ->
       value (characterX (run width height speed csize events st)) = NaN) /\
    (forall (events : list Event) (st : State),
       value (characterY st) = NaN ->
       value (characterY (run width height speed csize events st)) = NaN).
Proof.
  intros width height speed csize.
  split; [ | split; [ | split ] ].
  - intros st H. unfold tick. rewrite H. cbn [ne0 orb].
    apply advance_NaN_x. now right.
  - intros st H. unfold tick. rewrite H. cbn [ne0]. rewrite orb_true_r.
    apply advance_NaN_y. now right.
  - intros events. unfold run.
    induction events as [ | e events IH]; intros st H; cbn [fold_left]; [ exact H | ].
    apply IH. destruct e as [jx jy | ]; cbn [step].
    + exact H.
    + unfold tick.
      destruct (ne0 (value (joystickX st)) || ne0 (value (joystickY st)));
        [ apply advance_NaN_x; now left | exact H ].
  - intros events. unfold run.
    induction events as [ | e events IH]; intros st H; cbn [fold_left]; [ exact H | ].
    apply IH. destruct e as [jx jy | ]; cbn [step].
    + exact H.
    + unfold tick.
      destruct (ne0 (value (joystickX st)) || ne0 (value (joystickY st)));
        [ apply advance_NaN_y; now left | exact H ].
Qed.

End IntegratorMotion.

(** * The character as drawn *)

Section CharacterView.

Lemma drawn_inside (w h csize side : R) (st : GameScreen.State)
      (c : Character.CharacterProps) :
  Character.x c = GameScreen.characterX st ->
  Character.y c = GameScreen.characterY st ->
  Character.sizeOf c = Num side ->
  0 <= side <= csize ->
  Spec.inBounds csize w h st ->
  Geometry.drawnInside w h c.
Proof.
  intros Hx Hy Hside Hle [Bx By].
  destruct (within_Num _ _ _ Bx) as (x & Ex & Rx).
  destruct (within_Num _ _ _ By) as (y & Ey & Ry).
  exists (x - side / 2), (y - side / 2), side.
  unfold Character.animatedStyle, Character.view.
  cbn [JoystickView.width JoystickView.height].
  rewrite Hx, Hy, Hside, Ex, Ey, div_Num by lra.
  repeat split; try reflexivity; lra.
Qed.

(** X10.  The character is drawn wholly inside the window.  When the
    position kept by the screen is in bounds for a clamp size [csize], a
    [Character] at that position with a finite size of at most [csize] (the
    default 50 included) is translated so that its square lies in
    [[0, w] x [0, h]]; this holds for the character that the screen of
    [index.tsx] mounts. *)
Theorem character_drawn_inside_window :
  forall (w h csize side : R) (st : GameScreen.State) (c : Character.CharacterProps),
    Character.x c = GameScreen.characterX st ->
    Character.y c = GameScreen.characterY st ->
    Character.sizeOf c = Num side ->
    0 <= side <= csize ->
    Spec.inBounds csize w h st ->
    Geometry.drawnInside w h c /\
    (csize = 50 -> Geometry.drawnInside w h (App.characterProps st)).
Proof.
  intros w h csize side st c Hx Hy Hside Hle Hb.
  split; [ exact (drawn_inside w h csize side st c Hx Hy Hside Hle Hb) | ].
  intros ->.
  apply (drawn_inside w h 50 50 st); try reflexivity; [ lra | exact Hb ].
Qed.

End CharacterView.

(** * The mounted screen *)

Section MountedScreen.

Import Joystick GameScreen.

Lemma app_radius : maxDistance App.joystickProps = Num 45.
Proof.
  rewrite (maxDistance_Num _ App.joystickProps 150 60 eq_refl eq_refl).
  f_equal. lra.
Qed.

Lemma release_call :
  reportMove App.joystickProps (Num 0) (Num 0)
  = [scheduleOnRN handleJoystickMove (Num 0) (Num 0)].
Proof.
  rewrite (reportMove_Num _ App.joystickProps handleJoystickMove 45 0 0
             eq_refl app_radius) by lra.
  apply report_ext; lra.
Qed.

Lemma disc_is_unit_input (a b : number) (st : GameScreen.State) :
  value (joystickX st) = a -> value (joystickY st) = b ->
  Geometry.inUnitDisc a b -> Spec.unitInput st.
Proof.
  intros Ha Hb H. unfold Spec.unitInput. rewrite Ha, Hb.
  destruct a as [x | | | ], b as [y | | | ]; cbn in H; try contradiction.
  cbn [Spec.within]. split; nra.
Qed.

Section Window.

Variables w h : R.

Hypothesis window_fits : 50 / 2 <= w - 50 / 2 /\ 50 / 2 <= h - 50 / 2.

Lemma initial_steady : Geometry.steady w h (App.initialState (Num w) (Num h)).
Proof.
  pose proof (initial_settled w h 50 window_fits) as [Hb _].
  split; [ exact Hb | split; [ | constructor ] ].
  cbn. lra.
Qed.

Lemma step_steady (st : App.State) (e : App.Event) :
  Geometry.finiteEvent e -> Geometry.steady w h st ->
  Geometry.steady w h (App.step (Num w) (Num h) st e).
Proof.
  intros He (Hb & Hd & Hq).
  destruct e as [event | | | ]; unfold App.step; cbn [App.stepWith].
  - destruct He as (dx & dy & ->).
    destruct (onUpdate_report _ App.joystickProps handleJoystickMove 45 dx dy
                (App.stick st) eq_refl app_radius ltac:(lra)) as [E Hdisc].
    destruct (onUpdate App.joystickProps _ (App.stick st)) as [stick' calls].
    cbn [snd] in E. subst calls.
    split; [ exact Hb | split; [ exact Hd | ] ].
    cbn [App.scheduled]. apply Forall_app. split; [ exact Hq | ].
    constructor; [ | constructor ]. split; [ reflexivity | exact Hdisc ].
  - unfold onEnd. rewrite release_call.
    split; [ exact Hb | split; [ exact Hd | ] ].
    cbn [App.scheduled]. apply Forall_app. split; [ exact Hq | ].
    constructor; [ | constructor ]. split; [ reflexivity | cbn; lra ].
  - destruct (App.scheduled st) as [ | call rest ] eqn:Eq.
    + split; [ exact Hb | split; [ exact Hd | now rewrite Eq ] ].
    + inversion Hq as [ | ? ? [Hfn Hargs] Hrest ]; subst.
      unfold Geometry.steady. cbn [App.screen App.scheduled].
      unfold App.listener. rewrite Hfn.
      split; [ exact Hb | split; [ exact Hargs | exact Hrest ] ].
  - cbn [App.screen App.scheduled].
    assert (Hs : Spec.settled 50 w h (App.screen st)).
    { split; [ exact Hb | ].
      exact (disc_is_unit_input _ _ _ eq_refl eq_refl Hd). }
    pose proof (tick_settled w h 5 50 window_fits _ Hs) as [Hb' _].
    destruct (tick_keeps_input (Num w) (Num h) (Num 5) (Num 50) (App.screen st))
      as [Kx Ky].
    unfold Geometry.steady. cbn [App.screen App.scheduled].
    unfold frameCallback, moveSpeed, characterSize.
    split; [ exact Hb' | split; [ now rewrite Kx, Ky | exact Hq ] ].
Qed.

Lemma run_steady (events : list App.Event) (st : App.State) :
  Forall Geometry.finiteEvent events -> Geometry.steady w h st ->
  Geometry.steady w h (App.run (Num w) (Num h) events st).
Proof.
  unfold App.run, App.runWith. revert st.
  induction events as [ | e events IH]; intros st Hev Hst; cbn [fold_left].
  - exact Hst.
  - inversion Hev as [ | ? ? He Hrest ]; subst.
    apply IH; [ exact Hrest | ]. now apply step_steady.
Qed.

End Window.

(** X11.  On the screen of [index.tsx], whatever the user does, the
    character stays on screen.  For a window of at least 50 by 50 and every
    sequence of pan updates with finite displacements, releases, runs of
    scheduled calls and frames, in any order: the position is in bounds, both
    components of the stored input lie in [[-1, 1]], and the character's
    square is drawn inside the window. *)
Theorem mounted_screen_keeps_character_on_screen :
  forall (w h : R) (events : list App.Event),
    50 / 2 <= w - 50 / 2 -> 50 / 2 <= h - 50 / 2 ->
    Forall Geometry.finiteEvent events ->
    let st := App.run (Num w) (Num h) events (App.initialState (Num w) (Num h)) in
    Spec.inBounds 50 w h (App.screen st) /\
    Spec.unitInput (App.screen st) /\
    Geometry.drawnInside w h (App.characterProps (App.screen st)).
Proof.
  intros w h events Hw Hh Hev st.
  pose proof (run_steady w h (conj Hw Hh) events _ Hev
                (initial_steady w h (conj Hw Hh))) as (Hb & Hd & _).
  fold st in Hb, Hd.
  split; [ exact Hb | split; [ exact (disc_is_unit_input _ _ _ eq_refl eq_refl Hd) | ] ].
  apply (drawn_inside w h 50 50 (App.screen st)); try reflexivity; [ lra | exact Hb ].
Qed.

Section Runtime.

Variables width height : number.
Variable props : JoystickProps App.listener.

(** Running as many scheduled calls as wait at the head of the queue. *)
Lemma drain (q rest : list (Scheduled App.listener))
      (scr : GameScreen.State) (stk : Joystick.State) :
  App.runWith width height props (repeat App.RunScheduled (List.length q))
    {| App.screen := scr; App.stick := stk; App.scheduled := q ++ rest |}
  = {| App.screen :=
         fold_left (fun s call => fn _ call (arg_x _ call) (arg_y _ call) s) q scr;
       App.stick := stk;
       App.scheduled := rest |}.
Proof.
  unfold App.runWith. revert scr.
  induction q as [ | call q IH]; intros scr; [ reflexivity | ].
  cbn [List.length repeat fold_left app App.stepWith App.scheduled App.screen App.stick].
  apply IH.
Qed.

Lemma reportMove_onlyMoves (x y : number) :
  onMove props = Some handleJoystickMove ->
  Geometry.onlyMoves (reportMove props x y).
Proof.
  intros Hf. unfold reportMove. rewrite Hf.
  constructor; [ reflexivity | constructor ].
Qed.

(** With the listener of this screen, no event moves a lost character. *)
Lemma step_lost (st : App.State) (e : App.Event) :
  onMove props = Some handleJoystickMove ->
  Geometry.lost (App.screen st) /\ Geometry.onlyMoves (App.scheduled st) ->
  Geometry.lost (App.screen (App.stepWith width height props st e)) /\
  Geometry.onlyMoves (App.scheduled (App.stepWith width height props st e)).
Proof.
  intros Hf [Hl Hq].
  destruct e as [event | | | ]; cbn [App.stepWith].
  - unfold onUpdate. cbn [App.screen App.scheduled].
    split; [ exact Hl | ].
    apply Forall_app; split; [ exact Hq | now apply reportMove_onlyMoves ].
  - unfold onEnd. cbn [App.screen App.scheduled].
    split; [ exact Hl | ].
    apply Forall_app; split; [ exact Hq | now apply reportMove_onlyMoves ].
  - destruct (App.scheduled st) as [ | call rest ] eqn:Eq.
    + split; [ exact Hl | now rewrite Eq ].
    + inversion Hq as [ | ? ? Hfn Hrest ]; subst.
      cbn [App.screen App.scheduled].
      unfold App.listener. rewrite Hfn.
      split; [ exact Hl | exact Hrest ].
  - cbn [App.screen App.scheduled].
    split; [ now apply tick_lost | exact Hq ].
Qed.

Lemma run_lost (events : list App.Event) (st : App.State) :
  onMove props = Some handleJoystickMove ->
  Geometry.lost (App.screen st) /\ Geometry.onlyMoves (App.scheduled st) ->
  Geometry.lost (App.screen (App.runWith width height props events st)).
Proof.
  intros Hf. unfold App.runWith. revert st.
  induction events as [ | e events IH]; intros st Hst; cbn [fold_left].
  - exact (proj1 Hst).
  - apply IH. now apply step_lost.
Qed.

Lemma zero_radius_report (f : App.listener) (dx dy : R) (stk : Joystick.State) :
  onMove props = Some f -> maxDistance props = Num 0 ->
  snd (onUpdate props {| translationX := Num dx; translationY := Num dy |} stk)
  = [scheduleOnRN f NaN NaN].
Proof.
  intros Hf Hm.
  destruct (onUpdate_finite _ props 0 dx dy stk Hm (Rle_refl 0))
    as (tx & ty & E & Hn & _ & _).
  rewrite E. cbn [snd].
  pose proof (squares_below_radius 0 tx ty (Rle_refl 0) Hn) as Hsq.
  unfold reportMove. rewrite Hf, Hm.
  rewrite !div_zero_zero by nra. reflexivity.
Qed.

End Runtime.

(** X13.  Letting go stops the character.  From every state of the screen
    of [index.tsx], once the release has been handled and the calls that
    were waiting, its own included, have been run, the stored input is
    [(0, 0)], nothing is left waiting, and frames no longer change
    anything. *)
Theorem release_brings_character_to_rest :
  forall (width height : number) (st : App.State) (n : nat),
    let released :=
      App.run width height
        (App.PanEnd :: repeat App.RunScheduled (S (List.length (App.scheduled st)))) st in
    value (joystickX (App.screen released)) = Num 0 /\
    value (joystickY (App.screen released)) = Num 0 /\
    App.scheduled released = [] /\
    App.run width height (repeat App.FrameDrawn n) released = released.
Proof.
  intros width height st n released.
  assert (E : exists scr stk,
             released = {| App.screen := handleJoystickMove (Num 0) (Num 0) scr;
                           App.stick := stk;
                           App.scheduled := [] |}).
  { subst released. unfold App.run, App.runWith.
    cbn [fold_left App.stepWith]. unfold onEnd at 1. rewrite release_call.
    change (App.RunScheduled :: repeat App.RunScheduled (List.length (App.scheduled st)))
      with (repeat App.RunScheduled (S (List.length (App.scheduled st)))).
    rewrite <- Nat.add_1_r, repeat_app, fold_left_app.
    pose proof (drain width height App.joystickProps (App.scheduled st)
                  [scheduleOnRN handleJoystickMove (Num 0) (Num 0)]) as D.
    unfold App.runWith in D. rewrite D.
    cbn [repeat fold_left App.stepWith App.scheduled App.screen App.stick fn arg_x arg_y].
    eexists. eexists. reflexivity. }
  destruct E as (scr & stk & ->).
  cbn [App.screen App.scheduled handleJoystickMove joystickX joystickY assign value].
  repeat split.
  unfold App.run, App.runWith.
  induction n as [ | n IH]; [ reflexivity | ].
  cbn [repeat fold_left App.stepWith App.screen App.stick App.scheduled].
  unfold frameCallback. rewrite tick_idle by reflexivity. exact IH.
Qed.

(** X14.  What the missing validation costs on this screen.  Mount the
    joystick with a stick as large as its base ([maxDistance = 0]) and the
    listener of [index.tsx]: one drag update whose displacement is finite
    and at least one unit long on some axis, the run of its call and one
    frame make both coordinates of the character [NaN], and no later event
    brings the character back. *)
Theorem equal_diameters_lose_character :
  forall (width height : number) (props : JoystickProps App.listener)
         (s dx dy : R) (st : App.State) (later : list App.Event),
    onMove props = Some handleJoystickMove ->
    sizeOf props = Num s -> stickSizeOf props = Num s ->
    App.scheduled st = [] ->
    1 <= Rabs dx \/ 1 <= Rabs dy ->
    let dragged :=
      App.runWith width height props
        [App.PanUpdate {| translationX := Num dx; translationY := Num dy |};
         App.RunScheduled; App.FrameDrawn] st in
    Geometry.lost (App.screen dragged) /\
    Geometry.lost (App.screen (App.runWith width height props later dragged)).
Proof.
  intros width height props s dx dy st later Hf Hs Hk Hq _ dragged.
  assert (Hm : maxDistance props = Num 0).
  { rewrite (maxDistance_Num _ props s s Hs Hk). f_equal. field. }
  assert (Hd : Geometry.lost (App.screen dragged) /\
               Geometry.onlyMoves (App.scheduled dragged)).
  { subst dragged. unfold App.runWith. cbn [fold_left App.stepWith].
    pose proof (zero_radius_report props handleJoystickMove dx dy (App.stick st) Hf Hm) as E.
    destruct (onUpdate props _ (App.stick st)) as [stick' calls].
    cbn [snd] in E. subst calls. rewrite Hq.
    cbn [app App.scheduled App.screen App.stick fn arg_x arg_y].
    split; [ | constructor ].
    unfold frameCallback, tick.
    cbn [handleJoystickMove joystickX joystickY assign value ne0 orb].
    split; [ apply advance_NaN_x | apply advance_NaN_y ]; now right. }
  split; [ exact (proj1 Hd) | ].
  now apply run_lost.
Qed.

End MountedScreen.

(** ** Instances of the further properties *)

Section FurtherScenarios.

Import Joystick GameScreen Scenario Cases.

Lemma demo_radius_pos : 0 < (150 - 60) / 2.
Proof. lra. Qed.

Lemma NaN_drag_on_demo :
  onMove demoProps = Some tt /\
  onUpdate demoProps {| translationX := NaN; translationY := Num 3 |} Joystick.initialState
  = ({| translateX := mkShared NaN None; translateY := mkShared NaN None |},
     [scheduleOnRN tt NaN NaN]).
Proof.
  split; [ reflexivity | ].
  exact (NaN_drag_reports_NaN unit demoProps tt
           {| translationX := NaN; translationY := Num 3 |} Joystick.initialState
           eq_refl (or_introl eq_refl)).
Defined.

Lemma discriminate_PInf : PInf <> NaN.
Proof. discriminate. Qed.

Lemma discriminate_Num (r : R) : Num r <> NaN.
Proof. discriminate. Qed.

(** A drag with [translationX = Infinity] reports [(1, 0)]. *)
Lemma infinite_drag_to_the_right :
  Geometry.infinite PInf /\
  snd (onUpdate demoProps {| translationX := PInf; translationY := Num 7 |} Joystick.initialState)
  = [scheduleOnRN tt (Num 1) (Num 0)].
Proof.
  split; [ exact I | ].
  destruct (infinite_drag_reports_unit_vector unit demoProps tt 150 60 PInf (Num 7)
              Joystick.initialState eq_refl eq_refl eq_refl demo_radius_pos
              (or_introl I) discriminate_PInf (discriminate_Num 7))
    as (a & Ha & E & _).
  cbn [Math.atan2] in Ha. injection Ha as <-.
  rewrite E. cbn [snd]. apply report_ext; [ apply cos_0 | apply sin_0 ].
Defined.

(** With a stick of 150 on a base of 60, the drag [(0, 0)] reports
    [(1, 0)]. *)
Lemma oversized_stick_zero_drag :
  (60 - 150) / 2 < 0 /\
  snd (onUpdate oversizedStick (drag 0 0) Joystick.initialState)
  = [scheduleOnRN tt (Num 1) (Num 0)].
Proof.
  assert (H : (60 - 150) / 2 < 0) by lra.
  split; [ exact H | ].
  destruct (oversized_stick_always_full_deflection unit oversizedStick tt 60 150 0 0
              Joystick.initialState eq_refl eq_refl eq_refl H) as (E & _ & _ & _ & Ha).
  unfold drag. rewrite E, Ha. cbn [snd].
  apply report_ext; [ apply cos_0 | apply sin_0 ].
Defined.

(** A frame at the right wall with the stick pushed up and to the right:
    the character stays on the wall and does not move down. *)
Lemma frame_at_right_wall :
  50 / 2 <= 1000 - 50 / 2 <= 1000 - 50 / 2 /\ 50 / 2 <= 500 <= 1000 - 50 / 2 /\
  0 <= 5 /\
  exists x' y' : R,
    value (characterX (tick (Num 1000) (Num 1000) (Num 5) (Num 50)
                            (screenAt (1000 - 50 / 2) 500 (3 / 5) (- (4 / 5))))) = Num x' /\
    value (characterY (tick (Num 1000) (Num 1000) (Num 5) (Num 50)
                            (screenAt (1000 - 50 / 2) 500 (3 / 5) (- (4 / 5))))) = Num y' /\
    x' = 1000 - 50 / 2 /\ y' <= 500.
Proof.
  assert (Bx : 50 / 2 <= 1000 - 50 / 2 <= 1000 - 50 / 2) by lra.
  assert (By : 50 / 2 <= 500 <= 1000 - 50 / 2) by lra.
  assert (Hs : 0 <= 5) by lra.
  split; [ exact Bx | split; [ exact By | split; [ exact Hs | ] ] ].
  destruct (frame_never_moves_against_input 1000 1000 5 50 (1000 - 50 / 2) 500
              (3 / 5) (- (4 / 5)) (screenAt (1000 - 50 / 2) 500 (3 / 5) (- (4 / 5)))
              eq_refl eq_refl eq_refl eq_refl Bx By Hs)
    as (x' & y' & Tx & Ty & _ & _ & _ & Dy & Wall & _).
  exists x', y'. split; [ exact Tx | split; [ exact Ty | ] ].
  split; [ apply Wall; lra | apply Dy; lra ].
Defined.

Lemma NaN_input_frame :
  value (joystickX screenWithNaNInput) = NaN /\
  value (characterX (frameCallback (Num 1000) (Num 1000) screenWithNaNInput)) = NaN.
Proof.
  split; [ reflexivity | ].
  exact (proj1 (NaN_position_is_permanent (Num 1000) (Num 1000) moveSpeed characterSize)
           screenWithNaNInput eq_refl).
Defined.

Lemma corner_in_bounds : Spec.inBounds 50 1000 1000 (screenAt 25 975 0 0).
Proof. split; cbn; lra. Qed.

(** A character of the default size in the lower left corner. *)
Lemma default_character_in_corner :
  0 <= 50 <= 50 /\
  Geometry.drawnInside 1000 1000 (defaultCharacter (screenAt 25 975 0 0)) /\
  Geometry.drawnInside 1000 1000 (App.characterProps (screenAt 25 975 0 0)).
Proof.
  assert (H : 0 <= 50 <= 50) by lra.
  split; [ exact H | ].
  destruct (character_drawn_inside_window 1000 1000 50 50 (screenAt 25 975 0 0)
              (defaultCharacter (screenAt 25 975 0 0))
              eq_refl eq_refl eq_refl H corner_in_bounds) as [Hd Happ].
  split; [ exact Hd | exact (Happ eq_refl) ].
Defined.

Lemma session_finite : Forall Geometry.finiteEvent session.
Proof.
  unfold session.
  repeat constructor. exists 100, 100. reflexivity.
Qed.

Lemma window_1000 : 50 / 2 <= 1000 - 50 / 2.
Proof. lra. Qed.

Lemma session_keeps_character_on_screen :
  50 / 2 <= 1000 - 50 / 2 /\ Forall Geometry.finiteEvent session /\
  Spec.unitInput
    (App.screen (App.run (Num 1000) (Num 1000) session
                         (App.initialState (Num 1000) (Num 1000)))) /\
  Geometry.drawnInside 1000 1000
    (App.characterProps
       (App.screen (App.run (Num 1000) (Num 1000) session
                            (App.initialState (Num 1000) (Num 1000))))).
Proof.
  split; [ exact window_1000 | split; [ exact session_finite | ] ].
  exact (proj2 (mounted_screen_keeps_character_on_screen 1000 1000 session
                  window_1000 window_1000 session_finite)).
Defined.

Lemma equal_diameters_on_screen :
  maxDistance equalOnScreen = Num 0 /\
  (1 <= Rabs 3 \/ 1 <= Rabs 4) /\
  Geometry.lost
    (App.screen
       (App.runWith (Num 1000) (Num 1000) equalOnScreen
          [App.PanEnd; App.RunScheduled; App.FrameDrawn]
          (App.runWith (Num 1000) (Num 1000) equalOnScreen
             [App.PanUpdate (drag 3 4); App.RunScheduled; App.FrameDrawn]
             (App.initialState (Num 1000) (Num 1000))))).
Proof.
  assert (Hlong : 1 <= Rabs 3 \/ 1 <= Rabs 4)
    by (left; rewrite Rabs_pos_eq; lra).
  split; [ | split; [ exact Hlong | ] ].
  - rewrite (maxDistance_Num _ equalOnScreen 150 150 eq_refl eq_refl). f_equal. lra.
  - exact (proj2 (equal_diameters_lose_character (Num 1000) (Num 1000) equalOnScreen
                    150 3 4 (App.initialState (Num 1000) (Num 1000))
                    [App.PanEnd; App.RunScheduled; App.FrameDrawn]
                    eq_refl eq_refl eq_refl eq_refl Hlong)).
Defined.

End FurtherScenarios.
